(** * Doppioh: class resolution, TypeScript name mapping and header generation

    A shallow embedding of [src/console/doppioh.ts]: the resolution cache
    [findClass], the JVM/TypeScript type-name conversions of [TSTemplate],
    the header worklist ([generateClassDefinition], [_processHeader],
    [_processGenerateQueue]), the replay of a previous [JVMTypes.d.ts],
    [processClassData] with the TypeScript template, and the main run;
    besides, [file2desc], [getClasses] and [loadClass] over an abstract
    classpath, the output names [targetName] and [targetPath], and the
    [JSTemplate] run.

    The code mutates one global cache and one [TSTemplate] object and
    reports errors by exceptions that do not roll the mutations back, so
    everything effectful lives in a state monad whose failures keep the
    state reached so far. *)

From Stdlib Require Import Strings.String Strings.Ascii.
From stdpp Require Import base gmap sets list strings.

Open Scope string_scope.

(* stdpp makes [String.append] opaque to [simpl]; the proofs below compute with it. *)
Local Arguments String.append : simpl nomatch.

(* ------------------------------------------------------------------ *)
(** ** String helpers (JavaScript string operations) *)

Definition nl : string := String (ascii_of_nat 10) EmptyString.
Definition dq : string := String (ascii_of_nat 34) EmptyString.

(** [s.replace(/c/g, r)] for a one-character pattern. *)
Fixpoint replace_char (c : ascii) (r : string) (s : string) : string :=
  match s with
  | EmptyString => EmptyString
  | String a s' => if Ascii.eqb a c then r ++ replace_char c r s'
                   else String a (replace_char c r s')
  end.

(** [s.replace(/\/\//g, '_')]: left-to-right, non-overlapping. *)
Fixpoint replace_dslash (s : string) : string :=
  match s with
  | String a ((String b s') as t) =>
      if Ascii.eqb a "/" && Ascii.eqb b "/" then String "_" (replace_dslash s')
      else String a (replace_dslash t)
  | _ => s
  end.

(** [s[0]]; [None] is JavaScript's [undefined] on the empty string. *)
Definition first_char (s : string) : option ascii := String.get 0 s.

(** [s.slice(a, b)] with [0 <= a <= b], and [s.slice(a, -1)]. *)
Definition js_slice (s : string) (a : nat) (b : option nat) : string :=
  match b with
  | Some b => substring a (b - a) s
  | None => substring a (String.length s - 1 - a) s
  end.

(** Decimal rendering of a non-negative JavaScript number. *)
Fixpoint digits_rev (fuel n : nat) : string :=
  match fuel with
  | 0 => EmptyString
  | S f => String (ascii_of_nat (48 + n mod 10))
             (if decide (n < 10) then EmptyString else digits_rev f (n / 10))
  end.
Fixpoint string_rev (s : string) : string :=
  match s with EmptyString => EmptyString | String a s' => string_rev s' ++ String a EmptyString end.
Definition show_nat (n : nat) : string := string_rev (digits_rev (S n) n).

(** [xs.join(sep)] *)
Definition join (sep : string) (xs : list string) : string := String.concat sep xs.

(* ------------------------------------------------------------------ *)
(** ** Helpers of [src/util] used by doppioh *)

(** Modelled from the spec: [util.descriptor2typestr] (not under src/) on a
    reference descriptor [L<name>;] returns the internal name [<name>]:
    the descriptor without its first and last character. *)
Definition descriptor2typestr (d : string) : string :=
  substring 1 (String.length d - 2) d.

(** Modelled from the spec: [util.is_primitive_type] (not under src/) holds
    exactly on the one-character primitive descriptors and on void. *)
Definition is_primitive_type (d : string) : bool :=
  match d with
  | String c EmptyString =>
      existsb (Ascii.eqb c) ["B"; "C"; "D"; "F"; "I"; "J"; "S"; "V"; "Z"]%char
  | _ => false
  end.

(* ------------------------------------------------------------------ *)
(** ** Class data *)

(** A method as doppio's [methods.Method] exposes it to doppioh.
    [m_cls_isInterface] is [m.cls.accessFlags.isInterface()]. *)
Record Method := mkMethod {
  m_signature : string;
  m_fullSignature : string;
  m_parameterTypes : list string;
  m_returnType : string;
  m_isStatic : bool;
  m_isNative : bool;
  m_cls_isInterface : bool
}.

(** A field ([methods.Field]); [f_cls_name] is [f.cls.getInternalName()]. *)
Record Field := mkField {
  f_name : string;
  f_rawDescriptor : string;
  f_isStatic : bool;
  f_cls_name : string;
  f_cls_isInterface : bool
}.

(** The parsed class file ([ReferenceClassData]) as doppioh reads it.
    Names of classes are descriptors ([Ljava/lang/Object;]), as the
    [ClassReference.name]s passed to [findClass]. Injected members are the
    key/value pairs of the objects returned by [getInjected*], in key order. *)
Record RefClass := mkRef {
  rc_name : string;
  rc_super : option string;
  rc_interfaces : list string;
  rc_isInterface : bool;
  rc_fields : list Field;
  rc_methods : list Method;
  rc_mirandaAndDefault : list Method;
  rc_uninheritedDefault : list Method;
  rc_injectedFields : list (string * string);
  rc_injectedMethods : list (string * string);
  rc_injectedStaticMethods : list (string * string)
}.

Inductive ClassData :=
| RefCD (r : RefClass)
| ArrayCD (component : string)
| PrimCD (d : string).

(** Exceptions raised by the code. *)
Inductive Exn :=
| EAmbiguous                          (* new Error("Ambiguous.") *)
| ENotFound (ty : string)             (* Unable to find class ty *)
| EReadClass (d : string) (cause : Exn)  (* findClass's rethrow *)
| EStack                              (* RangeError: call stack exhausted *)
| EType                               (* TypeError: method missing on a non-reference ClassData *)
| ENoFile                             (* readFileSync on a missing file *)
| EFs (path : list string)            (* mkdirSync failure *)
| EFuel.                              (* loop bound of the model exhausted *)

(* ------------------------------------------------------------------ *)
(** ** Program state and the state/exception monad *)

(** The global [cache] of findClass, the fields of the [TSTemplate]
    instance and the contents of the two output streams. The queue is the
    [generateQueue] array with its last element (the top) first; each entry
    also carries the descriptor it was pushed for. [st_pushed],
    [st_emitted] and [st_trace] are ghost logs: the descriptors pushed on
    the queue, those popped for emission, and every call of [findClass]
    with the cache it saw. *)
Record St := mkSt {
  st_cache : gmap string ClassData;
  st_headerSet : gset string;
  st_queue : list (string * ClassData);
  st_headerCount : nat;
  st_classesSeen : list string;
  st_header : string;
  st_stub : string;
  st_pushed : list string;
  st_emitted : list string;
  st_trace : list (string * gmap string ClassData)
}.

Definition st_init : St := mkSt ∅ ∅ [] 0 [] "" "" [] [] [].

Inductive res (A : Type) := Ok (a : A) | Err (e : Exn).
Arguments Ok {A} a.
Arguments Err {A} e.

Definition M (A : Type) : Type := St -> res A * St.

Definition ret {A} (a : A) : M A := fun s => (Ok a, s).
Definition throw {A} (e : Exn) : M A := fun s => (Err e, s).
Definition bind {A B} (m : M A) (k : A -> M B) : M B :=
  fun s => match m s with
           | (Ok a, s') => k a s'
           | (Err e, s') => (Err e, s')
           end.
(** [try { m } catch (e) { h(e) }]: the handler starts from the state the
    failing code left behind. *)
Definition catch {A} (m : M A) (h : Exn -> M A) : M A :=
  fun s => match m s with
           | (Err e, s') => h e s'
           | r => r
           end.
Definition modify (f : St -> St) : M unit := fun s => (Ok tt, f s).
Definition gets {A} (f : St -> A) : M A := fun s => (Ok (f s), s).

Notation "'let*' x ':=' m 'in' k" := (bind m (fun x => k))
  (at level 200, x name, m at level 100, k at level 200).
Notation "m ;; k" := (bind m (fun _ => k)) (at level 100, right associativity).

Fixpoint mapM {A B} (f : A -> M B) (xs : list A) : M (list B) :=
  match xs with
  | [] => ret []
  | x :: xs' => let* y := f x in let* ys := mapM f xs' in ret (y :: ys)
  end.

(** [xs.forEach(f)] *)
Fixpoint forEach {A} (f : A -> M unit) (xs : list A) : M unit :=
  match xs with
  | [] => ret tt
  | x :: xs' => f x ;; forEach f xs'
  end.

(** State updates. *)
Definition upd_cache (f : gmap string ClassData -> gmap string ClassData) (s : St) : St :=
  mkSt (f (st_cache s)) (st_headerSet s) (st_queue s) (st_headerCount s) (st_classesSeen s)
       (st_header s) (st_stub s) (st_pushed s) (st_emitted s) (st_trace s).
Definition add_header_set (d : string) (s : St) : St :=
  mkSt (st_cache s) ({[d]} ∪ st_headerSet s) (st_queue s) (st_headerCount s) (st_classesSeen s)
       (st_header s) (st_stub s) (st_pushed s) (st_emitted s) (st_trace s).
Definition push_queue (d : string) (c : ClassData) (s : St) : St :=
  mkSt (st_cache s) (st_headerSet s) ((d, c) :: st_queue s) (st_headerCount s) (st_classesSeen s)
       (st_header s) (st_stub s) (st_pushed s ++ [d]) (st_emitted s) (st_trace s).
Definition pop_queue (d : string) (q : list (string * ClassData)) (s : St) : St :=
  mkSt (st_cache s) (st_headerSet s) q (st_headerCount s) (st_classesSeen s)
       (st_header s) (st_stub s) (st_pushed s) (st_emitted s ++ [d]) (st_trace s).
Definition incr_count (s : St) : St :=
  mkSt (st_cache s) (st_headerSet s) (st_queue s) (S (st_headerCount s)) (st_classesSeen s)
       (st_header s) (st_stub s) (st_pushed s) (st_emitted s) (st_trace s).
Definition add_class_seen (n : string) (s : St) : St :=
  mkSt (st_cache s) (st_headerSet s) (st_queue s) (st_headerCount s) (st_classesSeen s ++ [n])
       (st_header s) (st_stub s) (st_pushed s) (st_emitted s) (st_trace s).
Definition append_header (t : string) (s : St) : St :=
  mkSt (st_cache s) (st_headerSet s) (st_queue s) (st_headerCount s) (st_classesSeen s)
       (st_header s ++ t) (st_stub s) (st_pushed s) (st_emitted s) (st_trace s).
Definition append_stub (t : string) (s : St) : St :=
  mkSt (st_cache s) (st_headerSet s) (st_queue s) (st_headerCount s) (st_classesSeen s)
       (st_header s) (st_stub s ++ t) (st_pushed s) (st_emitted s) (st_trace s).
Definition log_call (d : string) (s : St) : St :=
  mkSt (st_cache s) (st_headerSet s) (st_queue s) (st_headerCount s) (st_classesSeen s)
       (st_header s) (st_stub s) (st_pushed s) (st_emitted s) (st_trace s ++ [(d, st_cache s)]).

(** [headerStream.write(t)] and [stream.write(t)] on the stub file. *)
Definition write_header (t : string) : M unit := modify (append_header t).
Definition write_stub (t : string) : M unit := modify (append_stub t).

(** [o === c] for [o = s[0]]. *)
Definition is_char (o : option ascii) (c : ascii) : bool :=
  match o with Some a => Ascii.eqb a c | None => false end.

(* ------------------------------------------------------------------ *)
(** ** The program *)

Section Program.

(** [loadClass(typestr)] followed by [new ReferenceClassData(bytes)]: the
    parsed class, or [None] when no classpath item yields the bytes. *)
Variable load : string -> option RefClass.

(** Frames left on the JavaScript call stack when [findClass] is entered
    from the template; running out raises a [RangeError]. *)
Variable depth : nat.

(** The [try] block of [findClass] up to the cache update (lines
    180-200): the class built for a descriptor missing from the cache,
    with [fc] resolving the superclass and the interfaces. *)
Definition buildClass (fc : string -> M ClassData) (d : string) : M ClassData :=
  if is_char (first_char d) "L" then
    match load (descriptor2typestr d) with
    | None => throw (ENotFound (descriptor2typestr d))
    | Some r =>
        let* superClass :=
          (match rc_super r with
           | None => ret None
           | Some sn => let* c := fc sn in ret (Some c)
           end) in
        let* interfaceClasses := mapM fc (rc_interfaces r) in
        ret (RefCD r)
    end
  else if is_char (first_char d) "[" then
    ret (ArrayCD (substring 1 (String.length d - 1) d))
  else ret (PrimCD d).

(** [findClass(descriptor)] (doppioh.ts, lines 173-208). The argument [n]
    counts the stack frames still available: a call with none left throws
    before its body runs. [rv.setResolved(superClass, interfaceClasses)]
    only fills fields of the class object that doppioh never reads, so the
    resolved record is the parsed one. The cache entry is written once the
    superclass and the interfaces are resolved (line 205). *)
Fixpoint findClass (n : nat) (d : string) : M ClassData :=
  match n with
  | 0 => throw EStack
  | S n' =>
    modify (log_call d) ;;
    fun s =>
    match st_cache s !! d with
    | Some c => (Ok c, s)
    | None =>
      catch
        (let* rv := buildClass (findClass n') d in
         modify (upd_cache (insert d rv)) ;;
         ret rv)
        (fun e => throw (EReadClass d e)) s
    end
  end.

(** The [else] branch of [generateClassDefinition]: mark, then push the
    resolved class. *)
Definition enqueue (d : string) : M unit :=
  modify (add_header_set d) ;;
  let* c := findClass depth d in
  modify (push_queue d c).

(** [generateClassDefinition(desc)] (lines 406-419). *)
Fixpoint generateClassDefinition (d : string) : M unit :=
  fun s =>
  if bool_decide (d ∈ st_headerSet s) || is_primitive_type d then (Ok tt, s)
  else match d with
       | String c rest =>
           if Ascii.eqb c "[" then generateClassDefinition rest s else enqueue d s
       | EmptyString => enqueue d s
       end.

Definition ns_prefix (prefix : bool) : string := if prefix then "JVMTypes." else "".

(** [.replace(/_/g, '__').replace(/\//g, '_')] *)
Definition sanitize (n : string) : string :=
  replace_char "/" "_" (replace_char "_" "__" n).

(** [jvmtype2tstype(desc, prefix)] (lines 369-385). *)
Fixpoint jvmtype2tstype (prefix : bool) (d : string) : M string :=
  match d with
  | String c rest =>
      if Ascii.eqb c "[" then
        let* t := jvmtype2tstype prefix rest in
        ret (ns_prefix prefix ++ "JVMArray<" ++ t ++ ">")
      else if Ascii.eqb c "L" then
        generateClassDefinition d ;;
        ret (ns_prefix prefix ++ sanitize (descriptor2typestr d))
      else if Ascii.eqb c "J" then ret "Long"
      else if Ascii.eqb c "V" then ret "void"
      else ret "number"
  | EmptyString => ret "number"
  end.


(** The string [jvmtype2tstype] returns, without its effect. *)
Fixpoint ts_name (prefix : bool) (d : string) : string :=
  match d with
  | String c rest =>
      if Ascii.eqb c "[" then ns_prefix prefix ++ "JVMArray<" ++ ts_name prefix rest ++ ">"
      else if Ascii.eqb c "L" then ns_prefix prefix ++ sanitize (descriptor2typestr d)
      else if Ascii.eqb c "J" then "Long"
      else if Ascii.eqb c "V" then "void"
      else "number"
  | EmptyString => "number"
  end.

(** [tstype2jvmtype(tsType)] (lines 390-401). The recursion is on
    [tsType.slice(9, tsType.length - 1)], strictly shorter; [fuel] bounds it
    by the length of the input and is never exhausted. *)
Fixpoint tstype2jvmtype_aux (fuel : nat) (ts : string) : res string :=
  match fuel with
  | 0 => Err EFuel
  | S f =>
      if String.prefix "JVMArray" ts then
        match tstype2jvmtype_aux f (substring 9 (String.length ts - 1 - 9) ts) with
        | Ok r => Ok ("[" ++ r)
        | Err e => Err e
        end
      else if String.eqb ts "number" then Err EAmbiguous
      else if String.eqb ts "void" then Ok "V"
      else Ok ("L" ++ replace_dslash (replace_char "_" "/" ts) ++ ";")
  end.
Definition tstype2jvmtype (ts : string) : res string :=
  tstype2jvmtype_aux (S (String.length ts)) ts.

Example sanitize_ex : sanitize "java/lang/Foo_Bar" = "java_lang_Foo__Bar".
Proof. reflexivity. Qed.
Example ts2jvm_ex : tstype2jvmtype "java_lang_Foo__Bar" = Ok "Ljava/lang/Foo_Bar;".
Proof. reflexivity. Qed.
Example ts2jvm_arr : tstype2jvmtype "JVMArray<JVMArray<number>>" = Err EAmbiguous.
Proof. reflexivity. Qed.
Example tsname_arr : ts_name false "[[I" = "JVMArray<JVMArray<number>>".
Proof. reflexivity. Qed.
Example show_nat_ex : show_nat 120 = "120".
Proof. reflexivity. Qed.

(* ------------------------------------------------------------------ *)
(** ** Header emission *)

(** [_outputMethod(m, stream)] (lines 475-508); every caller leaves
    [nonVirtualOnly] at its default [false]. *)
Definition outputMethod (m : Method) : M unit :=
  let argTypes := m_parameterTypes m in
  let rType := m_returnType m in
  let* rvSig :=
    (if String.eqb rType "V" then ret ""
     else let* t := jvmtype2tstype false rType in ret (", rv?: " ++ t)) in
  let cbSig := "e?: java_lang_Throwable" ++ rvSig in
  let methodFlags := "public" ++ (if m_isStatic m then " static" else "") in
  let* args :=
    (match argTypes with
     | [] => ret "args: {}[]"
     | _ =>
         let* ts := mapM (fun ty =>
                       let* t := jvmtype2tstype false ty in
                       ret (t ++ (if String.eqb ty "J" || String.eqb ty "D" then ", any" else "")))
                     argTypes in
         ret ("args: [" ++ join ", " ts ++ "]")
     end) in
  let methodSig := "(thread: JVMThread, " ++ args ++ ", cb?: (" ++ cbSig ++ ") => void): void" in
  if m_cls_isInterface m then
    (if m_isStatic m then ret tt
     else write_header ("    " ++ dq ++ m_signature m ++ dq ++ methodSig ++ ";" ++ nl))
  else
    write_header ("    " ++ methodFlags ++ " " ++ dq ++ m_signature m ++ dq ++ methodSig ++ ";" ++ nl) ;;
    write_header ("    " ++ methodFlags ++ " " ++ dq ++ m_fullSignature m ++ dq ++ methodSig ++ ";" ++ nl).

(** [_outputField(f, stream)] (lines 513-526). *)
Definition outputField (f : Field) : M unit :=
  if f_cls_isInterface f then ret tt
  else
    let* t := jvmtype2tstype false (f_rawDescriptor f) in
    write_header ("    public " ++ (if f_isStatic f then "static " else "") ++ dq ++
                  descriptor2typestr (f_cls_name f) ++ "/" ++ f_name f ++ dq ++ ": " ++ t ++ ";" ++ nl).

Definition outputInjectedField (nt : string * string) : M unit :=
  write_header ("    public " ++ nt.1 ++ ": " ++ nt.2 ++ ";" ++ nl).
Definition outputInjectedMethod (nt : string * string) : M unit :=
  write_header ("    public " ++ nt.1 ++ nt.2 ++ ";" ++ nl).
Definition outputInjectedStaticMethod (nt : string * string) : M unit :=
  write_header ("    public static " ++ nt.1 ++ nt.2 ++ ";" ++ nl).

(** The base clause of a declaration (lines 444-458). *)
Definition processHeaderBases (r : RefClass) : M unit :=
  (match rc_super r with
   | None => ret tt
   | Some sc => let* t := jvmtype2tstype false sc in write_header (" extends " ++ t)
   end) ;;
  (match rc_interfaces r with
   | [] => ret tt
   | ifaces =>
       write_header (if rc_isInterface r then ", " else " implements ") ;;
       let* ts := mapM (jvmtype2tstype false) ifaces in
       write_header (join ", " ts)
   end).

(** [_processHeader(cls)] (lines 421-468). The queue holds what
    [findClass] returned; only a [ReferenceClassData] has
    [getInterfaceClassReferences], anything else raises a [TypeError]. *)
Definition processHeader (cls : ClassData) : M unit :=
  match cls with
  | RefCD r =>
      modify incr_count ;;
      let* name := jvmtype2tstype false (rc_name r) in
      write_header ((if rc_isInterface r then "  export interface " else "  export class ") ++ name) ;;
      processHeaderBases r ;;
      write_header (" {" ++ nl) ;;
      forEach outputInjectedField (rc_injectedFields r) ;;
      forEach outputInjectedMethod (rc_injectedMethods r) ;;
      forEach outputInjectedStaticMethod (rc_injectedStaticMethods r) ;;
      forEach outputField (rc_fields r) ;;
      forEach outputMethod (rc_methods r ++ rc_mirandaAndDefault r)%list ;;
      forEach outputMethod (rc_uninheritedDefault r) ;;
      write_header ("  }" ++ nl)
  | _ => throw EType
  end.

(** [_processGenerateQueue()] (lines 549-553): pop and emit until empty.
    [fuel] bounds the [while] loop of the model. *)
Fixpoint processGenerateQueue (fuel : nat) : M unit :=
  fun s =>
  match st_queue s with
  | [] => (Ok tt, s)
  | (d, c) :: q =>
      match fuel with
      | 0 => (Err EFuel, s)
      | S f => (processHeader c ;; processGenerateQueue f) (pop_queue d q s)
      end
  end.

(* ------------------------------------------------------------------ *)
(** ** The TSTemplate constructor: replay of the previous header *)

(** One pass of lines 261-267 / 270-274 over the old header text [h]:
    [while ((searchIdx = h.indexOf(pat, searchIdx)) > -1) { ...; searchIdx++; }].
    [fuel] bounds the loop; the index grows at every turn, so
    [length h + 1] turns always suffice. *)
Fixpoint replayPass (fuel : nat) (pat : string) (skipArrays : bool) (h : string) (searchIdx : nat) : M unit :=
  match fuel with
  | 0 => ret tt
  | S f =>
      match String.index searchIdx pat h with
      | None => ret tt
      | Some i =>
          let start := i + String.length pat in
          let clsName := js_slice h start (String.index start " " h) in
          (if skipArrays && String.prefix "JVMArray" clsName then ret tt
           else match tstype2jvmtype clsName with
                | Ok d => generateClassDefinition d
                | Err e => throw e
                end) ;;
          replayPass f pat skipArrays h (S i)
      end
  end.

(** Lines 257-277: [existing] is the content of [JVMTypes.d.ts], [None]
    when [readFileSync] throws. Every exception is ignored. *)
Definition replayHeaders (existing : option string) : M unit :=
  catch
    (match existing with
     | None => throw ENoFile
     | Some h =>
         replayPass (S (String.length h)) "export class " true h 0 ;;
         replayPass (S (String.length h)) "export interface " false h 0
     end)
    (fun _ => ret tt).

(** Fixed text written by [headersStart] (lines 293-307). *)
Definition headersStart_text (doppiojvmPath : string) : string :=
  "// TypeScript declaration file for JVM types. Automatically generated by doppioh.
// http://github.com/plasma-umass/doppio
import DoppioJVM = require('" ++ doppiojvmPath ++ "');
import JVMThread = DoppioJVM.VM.Threading.JVMThread;
import Long = DoppioJVM.VM.Long;
import ClassData = DoppioJVM.VM.ClassFile.ClassData;
import ArrayClassData = DoppioJVM.VM.ClassFile.ArrayClassData;
import ReferenceClassData = DoppioJVM.VM.ClassFile.ReferenceClassData;
import Monitor = DoppioJVM.VM.Monitor;
import ClassLoader = DoppioJVM.VM.ClassFile.ClassLoader;
import Interfaces = DoppioJVM.VM.Interfaces;

declare module JVMTypes {" ++ nl.

(** [generateArrayDefinition] (lines 558-572). *)
Definition arrayDefinition_text : string :=
  "  export class JVMArray<T> extends java_lang_Object {
    /**
     * NOTE: Our arrays are either JS arrays, or TypedArrays for primitive
     * types.
     */
    public array: T[];
    public getClass(): ArrayClassData<T>;
    /**
     * Create a new JVM array of this type that starts at start, and ends at
     * end. End defaults to the end of the array.
     */
    public slice(start: number, end?: number): JVMArray<T>;
  }" ++ nl.

(** [generateMiscDefinitions] (lines 574-578). *)
Definition miscDefinitions_text : string :=
  "  // Basic, valid JVM types.
  export type BasicType = number | java_lang_Object | Long;
  export type JVMFunction = (thread: JVMThread, args: BasicType[], cb: (e?: JVMTypes.java_lang_Object, rv?: BasicType) => void) => void;" ++ nl.

(** [new TSTemplate(doppiojvmPath, outputPath)] (lines 255-292), with
    [doppiojvmPath] already made relative to the output directory and
    [force] the descriptors [util.int_classname] makes of the
    [force_headers] option. *)
Definition tsTemplate_new (existing : option string) (doppiojvmPath : string) (force : list string) : M unit :=
  replayHeaders existing ;;
  write_header (headersStart_text doppiojvmPath) ;;
  write_header arrayDefinition_text ;;
  write_header miscDefinitions_text ;;
  generateClassDefinition "Ljava/lang/Throwable;" ;;
  forEach generateClassDefinition force.

(** [headersEnd] (lines 333-339). *)
Definition headersEnd (fuel : nat) : M unit :=
  processGenerateQueue fuel ;;
  write_header ("}" ++ nl ++ "export = JVMTypes;" ++ nl).

(* ------------------------------------------------------------------ *)
(** ** Stub emission *)

(** The calls [processClassData] makes on its [ITemplate]. *)
Inductive TemplateCall :=
| CallClassStart (className : string)
| CallMethod (classDesc methodName : string) (isStatic : bool) (argTypes : list string) (rType : string)
| CallClassEnd (className : string).

(** The [methods.forEach] of [processClassData] (lines 217-225), threading
    [nativeFound]. *)
Fixpoint pcd_methods (classDesc fixedClassName : string) (ms : list Method) (nativeFound : bool)
  : list TemplateCall * bool :=
  match ms with
  | [] => ([], nativeFound)
  | m :: ms' =>
      if m_isNative m then
        let start := if nativeFound then [] else [CallClassStart fixedClassName] in
        let '(rest, nf) := pcd_methods classDesc fixedClassName ms' true in
        ((start ++ CallMethod classDesc (m_signature m) (m_isStatic m) (m_parameterTypes m) (m_returnType m) :: rest)%list, nf)
      else pcd_methods classDesc fixedClassName ms' nativeFound
  end.

(** [processClassData(stream, template, classData)] (lines 210-230): the
    template calls it makes, in order. *)
Definition processClassData (r : RefClass) : list TemplateCall :=
  let n := replace_char "/" "_" (rc_name r) in
  let fixedClassName := substring 1 (String.length n - 2) n in
  let '(calls, nativeFound) := pcd_methods (rc_name r) fixedClassName (rc_methods r) false in
  (calls ++ (if nativeFound then [CallClassEnd fixedClassName] else []))%list.

(** [TSTemplate.fileStart] (lines 310-317). *)
Definition ts_fileStart (doppiojvmPath : string) : M unit :=
  write_stub ("import JVMTypes = require(" ++ dq ++ "./JVMTypes" ++ dq ++ ");" ++ nl ++
              "import DoppioJVM = require('" ++ doppiojvmPath ++ "');" ++ nl ++
              "import JVMThread = DoppioJVM.VM.Threading.JVMThread;" ++ nl ++
              "import Long = DoppioJVM.VM.Long;" ++ nl ++
              "declare var registerNatives: (natives: any) => void;" ++ nl).

(** [TSTemplate.fileEnd] (lines 318-328). *)
Definition ts_fileEnd : M unit :=
  let* seen := gets st_classesSeen in
  write_stub (nl ++ "// Export line. This is what DoppioJVM sees." ++ nl ++ "registerNatives({") ;;
  forEach (fun ik : nat * string =>
             (if Nat.ltb 0 ik.1 then write_stub "," else ret tt) ;;
             write_stub (nl ++ "  '" ++ replace_char "_" "/" ik.2 ++ "': " ++ ik.2))
          (imap pair seen) ;;
  write_stub (nl ++ "});" ++ nl).

(** [TSTemplate.classStart] (lines 340-344). *)
Definition ts_classStart (className : string) : M unit :=
  write_stub (nl ++ "class " ++ className ++ " {" ++ nl) ;;
  modify (add_class_seen className) ;;
  generateClassDefinition ("L" ++ replace_char "_" "/" className ++ ";").

(** [TSTemplate.classEnd] (lines 345-347). *)
Definition ts_classEnd (className : string) : M unit :=
  write_stub (nl ++ "}" ++ nl).

(** [TSTemplate.method] (lines 348-364). *)
Definition ts_method (classDesc methodName : string) (isStatic : bool) (argTypes : list string) (rType : string) : M unit :=
  let* trueRtype := jvmtype2tstype true rType in
  let rval := if String.eqb trueRtype "number" then "0"
              else if negb (String.eqb trueRtype "void") then "null" else "" in
  forEach generateClassDefinition (argTypes ++ [rType])%list ;;
  let* thisPart :=
    (if isStatic then ret ""
     else let* t := jvmtype2tstype true classDesc in ret (", javaThis: " ++ t)) in
  let* argPart :=
    (match argTypes with
     | [] => ret ""
     | _ => let* ts := mapM (jvmtype2tstype true) argTypes in
            ret (", " ++ join ", " (imap (fun i t => "arg" ++ show_nat i ++ ": " ++ t) ts))
     end) in
  let* rT := jvmtype2tstype true rType in
  write_stub (nl ++ "  public static '" ++ methodName ++ "'(thread: JVMThread" ++ thisPart ++ argPart ++
              "): " ++ rT ++ " {" ++ nl ++
              "    thread.throwNewException('Ljava/lang/UnsatisfiedLinkError;', 'Native method not implemented.');" ++
              (if String.eqb rval "" then "" else nl ++ "    return " ++ rval ++ ";") ++
              nl ++ "  }" ++ nl).

Definition ts_call (c : TemplateCall) : M unit :=
  match c with
  | CallClassStart n => ts_classStart n
  | CallMethod cd mn st ats rt => ts_method cd mn st ats rt
  | CallClassEnd n => ts_classEnd n
  end.

(** One turn of the main loop (lines 661-664): resolve, then emit stubs.
    [processClassData] casts the result; on a non-reference class its
    method calls raise a [TypeError]. *)
Definition processClass (d : string) : M unit :=
  let* c := findClass depth d in
  match c with
  | RefCD r => forEach ts_call (processClassData r)
  | _ => throw EType
  end.

(** The callback of lines 652-670 in TypeScript mode: [classes] is what
    [getClasses(targetPath)] found on the classpath, [existing] the old
    [JVMTypes.d.ts]. The stub artifact is [st_stub], the header artifact
    [st_header]. *)
Definition run (existing : option string) (doppiojvmPath : string) (force classes : list string)
    (fuel : nat) : M unit :=
  tsTemplate_new existing doppiojvmPath force ;;
  ts_fileStart doppiojvmPath ;;
  forEach processClass classes ;;
  ts_fileEnd ;;
  headersEnd fuel.

End Program.

(* ------------------------------------------------------------------ *)
(** ** The output directory *)

(** A file system as the list of its directories, each a path of
    segments; the empty path is the working directory, which exists. *)
Definition Fs := list (list string).

(** [fs.existsSync(p)] *)
Definition existsSync (fs : Fs) (p : list string) : bool :=
  match p with
  | [] => true
  | _ => bool_decide (p ∈ fs)
  end.

(** [fs.mkdirSync(p)] without the [recursive] option, as Node documents
    it: [EEXIST] when [p] exists, [ENOENT] when its parent does not. *)
Definition mkdirSync (fs : Fs) (p : list string) : res Fs :=
  if existsSync fs p then Err (EFs p)
  else if existsSync fs (removelast p) then Ok (p :: fs)
  else Err (EFs p).

(** Lines 635-637:
    [if (!fs.existsSync(outputDirectory)) fs.mkdirSync(outputDirectory)]. *)
Definition ensureOutputDirectory (fs : Fs) (outputDirectory : list string) : res Fs :=
  if negb (existsSync fs outputDirectory) then mkdirSync fs outputDirectory else Ok fs.

(** Internal names on which the underscore escaping can be undone: no
    ['/'] is directly followed by ['/'] or ['_'] (no empty package segment
    and no segment or simple name that begins with an underscore). *)
Fixpoint name_ok (n : string) : bool :=
  match n with
  | String a ((String b _) as t) =>
      negb (Ascii.eqb a "/" && (Ascii.eqb b "/" || Ascii.eqb b "_")) && name_ok t
  | _ => true
  end.

(** Characters left alone by the escaping. *)
Fixpoint no_us_slash (p : string) : bool :=
  match p with
  | EmptyString => true
  | String a p' => negb (Ascii.eqb a "_") && negb (Ascii.eqb a "/") && no_us_slash p'
  end.

(** [k] levels of array around the descriptor [d]. *)
Fixpoint array_of (k : nat) (d : string) : string :=
  match k with 0 => d | S k' => String "[" (array_of k' d) end.

(* ------------------------------------------------------------------ *)
(** ** A small classpath used by the concrete runs below *)

Definition plain_class (name : string) (super : option string) (ms : list Method) : RefClass :=
  mkRef name super [] false [] ms [] [] [] [] [].

(** [public static native void bar()] of class [Foo]. *)
Definition m_bar : Method := mkMethod "bar()V" "LFoo;/bar()V" [] "V" true true false.

(** The interface [java/util/List]; as in every interface's class file,
    its superclass is [java/lang/Object]. *)
Definition java_util_List : RefClass :=
  mkRef "Ljava/util/List;" (Some "Ljava/lang/Object;") ["Ljava/util/Collection;"] true
        [] [] [] [] [] [] [].

(** [java/lang/Object], [java/lang/Throwable], [Foo] (one native method),
    [Plain] (none), [a/_b], and the interface [java/util/List] extending
    [java/util/Collection], as a Java compiler writes them: an interface's
    class file names [java/lang/Object] as its superclass. *)
Definition sample_load (t : string) : option RefClass :=
  if String.eqb t "java/lang/Object" then Some (plain_class "Ljava/lang/Object;" None [])
  else if String.eqb t "java/lang/Throwable" then
    Some (plain_class "Ljava/lang/Throwable;" (Some "Ljava/lang/Object;") [])
  else if String.eqb t "Foo" then Some (plain_class "LFoo;" (Some "Ljava/lang/Object;") [m_bar])
  else if String.eqb t "Plain" then Some (plain_class "LPlain;" (Some "Ljava/lang/Object;") [])
  else if String.eqb t "a/_b" then Some (plain_class "La/_b;" (Some "Ljava/lang/Object;") [])
  else if String.eqb t "java/lang/Foo_Bar" then
    Some (plain_class "Ljava/lang/Foo_Bar;" (Some "Ljava/lang/Object;") [])
  else if String.eqb t "java/util/Collection" then
    Some (mkRef "Ljava/util/Collection;" (Some "Ljava/lang/Object;") [] true [] [] [] [] [] [] [])
  else if String.eqb t "java/util/List" then Some java_util_List
  else None.

(** [sample_load] with a class [X] whose instance field has the type [Y],
    which is not on the classpath. *)
Definition broken_field_load (t : string) : option RefClass :=
  if String.eqb t "X" then
    Some (mkRef "LX;" (Some "Ljava/lang/Object;") [] false [mkField "y" "LY;" false "LX;" false]
                [] [] [] [] [] [])
  else sample_load t.

(* ------------------------------------------------------------------ *)
(** ** Relations between the state before and after a computation *)

(** Every run of [m], failing or not, relates its start and end state by [R]. *)
Definition pres (R : St -> St -> Prop) {A} (m : M A) : Prop := forall s, R s (snd (m s)).

(** Only the cache and the trace of findClass calls differ. *)
Definition same_but_cache (s s' : St) : Prop :=
  st_headerSet s' = st_headerSet s /\ st_queue s' = st_queue s /\
  st_headerCount s' = st_headerCount s /\ st_classesSeen s' = st_classesSeen s /\
  st_header s' = st_header s /\ st_stub s' = st_stub s /\
  st_pushed s' = st_pushed s /\ st_emitted s' = st_emitted s.

(** What [findClass] makes of a descriptor when it has to build it. *)
Definition expected_class (load : string -> option RefClass) (d : string) : option ClassData :=
  if is_char (first_char d) "L" then RefCD <$> load (descriptor2typestr d)
  else if is_char (first_char d) "[" then Some (ArrayCD (substring 1 (String.length d - 1) d))
  else Some (PrimCD d).

(** Every cache entry is what [findClass] builds for its descriptor. *)
Definition cache_ok (load : string -> option RefClass) (s : St) : Prop :=
  forall d c, st_cache s !! d = Some c -> expected_class load d = Some c.

(** A run over [Foo] with the sample classpath, replaying [existing]. *)
Definition sample_run (existing : option string) : res unit * St :=
  run sample_load 50 existing "doppiojvm" [] ["LFoo;"] 100 st_init.

(** The findClass trace of [s'] begins with [t]. *)
Definition trace_from (t : list (string * gmap string ClassData)) (s' : St) : Prop :=
  exists l, st_trace s' = (t ++ l)%list.

(** The trace of [s'] extends that of [s]. *)
Definition trace_ext (s s' : St) : Prop := trace_from (st_trace s) s'.

(** A malformed class file that names its own class as superclass. *)
Definition cyclic_load (t : string) : option RefClass :=
  if String.eqb t "Cyc" then Some (plain_class "LCyc;" (Some "LCyc;") []) else None.

(** A relation on states that every elementary state update of the
    header side of the program keeps, given the classes [load] yields. *)
Record frame (R : St -> St -> Prop) (load : string -> option RefClass) : Prop := {
  fr_refl : forall s, R s s;
  fr_trans : forall s1 s2 s3, R s1 s2 -> R s2 s3 -> R s1 s3;
  fr_log : forall d s, R s (log_call d s);
  fr_cache : forall d c s, expected_class load d = Some c -> R s (upd_cache (insert d c) s);
  fr_add : forall d s, R s (add_header_set d s);
  fr_push : forall d c s, R s (push_queue d c s);
  fr_header : forall t s, R s (append_header t s);
  fr_count : forall s, R s (incr_count s);
  fr_pop : forall d c q s, st_queue s = (d, c) :: q -> R s (pop_queue d q s)
}.

(** The same, with the updates of the stub side as well. *)
Record tframe (R : St -> St -> Prop) (load : string -> option RefClass) : Prop := {
  tf_h : frame R load;
  tf_stub : forall t s, R s (append_stub t s);
  tf_seen : forall n s, R s (add_class_seen n s)
}.

(** The cache invariant carried from one state to the next. *)
Definition cache_step (load : string -> option RefClass) (s s' : St) : Prop :=
  cache_ok load s -> cache_ok load s'.

(** The stub stream and the class list of [fileEnd] are left alone. *)
Definition stub_same (s s' : St) : Prop :=
  st_stub s' = st_stub s /\ st_classesSeen s' = st_classesSeen s.

(** The membership set only grows. *)
Definition hs_mono (s s' : St) : Prop := st_headerSet s ⊆ st_headerSet s'.

(** Two computations that, started from states with the same stub
    stream and class list and a sound cache, return the same value and
    leave the same stub stream and class list when both complete. *)
Definition stub_rel {A} (load : string -> option RefClass) (m1 m2 : M A) : Prop :=
  forall s1 s2 a1 a2 s1' s2',
    cache_ok load s1 -> cache_ok load s2 -> stub_same s1 s2 ->
    m1 s1 = (Ok a1, s1') -> m2 s2 = (Ok a2, s2') -> a1 = a2 /\ stub_same s1' s2'.

(** The worklist invariant: no descriptor is pushed twice, every pushed
    descriptor is in the membership set, and the pushed descriptors are
    those emitted plus those still waiting on the queue. *)
Definition worklist_inv (s : St) : Prop :=
  NoDup (st_pushed s) /\ (forall d, d ∈ st_pushed s -> d ∈ st_headerSet s) /\
  st_pushed s ≡ₚ (st_emitted s ++ map fst (st_queue s))%list.

(* ------------------------------------------------------------------ *)
(** ** Further definitions: what the membership set may hold *)

(** No member of the membership set is a primitive or an array descriptor. *)
Definition hs_good (s : St) : Prop :=
  forall x, x ∈ st_headerSet s -> is_primitive_type x = false /\ first_char x <> Some "["%char.

(* ------------------------------------------------------------------ *)
(** ** Class lookup on the classpath *)

(** [TriState] of [src/enums], the answer of [IClasspathItem.hasClass]. *)
Inductive TriState := TRUE | FALSE | INDETERMINATE.

(** The parts of an [IClasspathItem] doppioh calls: [tryStatSync] ([None]
    for [null], otherwise the stat's [isDirectory()]), [tryReaddirSync]
    ([None] for [null]), [hasClass] and [tryLoadClassSync] ([None] for
    [null]). *)
Record ClasspathItem := mkItem {
  tryStatSync : string -> option bool;
  tryReaddirSync : string -> option (list string);
  hasClass : string -> TriState;
  tryLoadClassSync : string -> option (list Byte.byte)
}.

(** [loadClass(type)] (lines 157-171). *)
Fixpoint loadClass (classpath : list ClasspathItem) (type : string) : res (list Byte.byte) :=
  match classpath with
  | [] => Err (ENotFound type)
  | item :: rest =>
      match hasClass item type with
      | INDETERMINATE | TRUE =>
          match tryLoadClassSync item type with
          | Some buff => Ok buff
          | None => loadClass rest type
          end
      | FALSE => loadClass rest type
      end
  end.

(** An item that serves [type]: it does not answer [FALSE] and it yields bytes. *)
Definition serves (item : ClasspathItem) (type : string) : option (list Byte.byte) :=
  match hasClass item type with
  | FALSE => None
  | _ => tryLoadClassSync item type
  end.

(* ------------------------------------------------------------------ *)
(** ** Listing the classes to process *)

(** [file2desc(fname)] (lines 101-103): [L${fname.slice(0, fname.length - 6)};].
    A negative end of [slice] counts from the end of the string. *)
Definition file2desc (fname : string) : string :=
  let len := String.length fname in
  let e := if Nat.leb 6 len then len - 6 else len - (6 - len) in
  "L" ++ substring 0 e fname ++ ";".

(** What [getClasses] returns, or the error it throws. [GcFuel] is the
    loop bound of the model running out. *)
Inductive GcResult :=
| GcOk (rv : list string)
| GcNoResource (item : string)   (* Unable to find resource item. *)
| GcFuel.

(** Lines 114-118: [tryStatSync(item)], then [tryStatSync(item + ".class")]. *)
Definition stat_of (i : ClasspathItem) (item : string) : option bool :=
  match tryStatSync i item with
  | Some b => Some b
  | None => tryStatSync i (item ++ ".class")
  end.

(** The [for] loop of lines 113-124: the last [isDirectory()] seen and
    the items that have [item]. *)
Fixpoint gc_stat (cp : list ClasspathItem) (item : string) (isDir : bool)
    (cpItems : list ClasspathItem) : bool * list ClasspathItem :=
  match cp with
  | [] => (isDir, cpItems)
  | i :: rest =>
      match stat_of i item with
      | None => gc_stat rest item isDir cpItems
      | Some b => gc_stat rest item b (cpItems ++ [i])
      end
  end.

Section GetClasses.

(** Node's [path.join] and [path.extname]. *)
Variable path_join : string -> string -> string.
Variable path_extname : string -> string.

(** The innermost loop (lines 138-146) over one directory listing; the
    directory stack is the JavaScript array, its top last. *)
Fixpoint gc_listing (dir : string) (listing : list string) (rv dirStack : list string)
    : list string * list string :=
  match listing with
  | [] => (rv, dirStack)
  | item :: l =>
      let itemPath := path_join dir item in
      if String.eqb (path_extname itemPath) ".class"
      then gc_listing dir l (rv ++ [file2desc itemPath]) dirStack
      else gc_listing dir l rv (dirStack ++ [itemPath])
  end.

(** The loop over the items that have [item] (lines 133-148). *)
Fixpoint gc_items (dir : string) (cpItems : list ClasspathItem) (rv dirStack : list string)
    : list string * list string :=
  match cpItems with
  | [] => (rv, dirStack)
  | i :: is =>
      match tryReaddirSync i dir with
      | None => gc_items dir is rv dirStack
      | Some l => let '(rv', st') := gc_listing dir l rv dirStack in gc_items dir is rv' st'
      end
  end.

(** [while (dirStack.length > 0) { let dir = dirStack.pop(); ... }];
    [fuel] bounds the loop. *)
Fixpoint gc_walk (fuel : nat) (cpItems : list ClasspathItem) (rv dirStack : list string) : GcResult :=
  match dirStack with
  | [] => GcOk rv
  | _ =>
      match fuel with
      | 0 => GcFuel
      | S f =>
          let '(rv', st') := gc_items (List.last dirStack "") cpItems rv (removelast dirStack) in
          gc_walk f cpItems rv' st'
      end
  end.

(** [getClasses(item)] (lines 109-155). *)
Definition getClasses (classpath : list ClasspathItem) (item : string) (fuel : nat) : GcResult :=
  let '(isDir, cpItems) := gc_stat classpath item false [] in
  match cpItems with
  | [] => GcNoResource item
  | _ =>
      if isDir then gc_walk fuel cpItems [] [item]
      else GcOk [if String.eqb (path_extname item) ".class" then file2desc item
                 else "L" ++ item ++ ";"]
  end.

End GetClasses.

(** Lines 639-640: the stub file name and the path searched on the classpath. *)
Definition targetName (className : string) : string :=
  replace_char "." "_" (replace_char "/" "_" className).
Definition targetPath (className : string) : string :=
  replace_char "." "/" className.

(* ------------------------------------------------------------------ *)
(** ** The JavaScript template *)

(** A [JSTemplate] instance and the text written to its stream. *)
Record JSSt := mkJS {
  js_firstMethod : bool;
  js_firstClass : bool;
  js_out : string
}.

(** [new JSTemplate()] with an empty stream. *)
Definition js_init : JSSt := mkJS true true "".

Definition js_write (t : string) (s : JSSt) : JSSt :=
  mkJS (js_firstMethod s) (js_firstClass s) (js_out s ++ t).

Definition js_fileStart_text : string :=
  "// This entire object is exported. Feel free to define private helper functions above it."
  ++ nl ++ "registerNatives({".

(** [fileStart] and [fileEnd] (lines 588-593). *)
Definition js_fileStart (s : JSSt) : JSSt := js_write js_fileStart_text s.
Definition js_fileEnd (s : JSSt) : JSSt := js_write (nl ++ "});" ++ nl) s.

(** [classStart] (lines 594-602). *)
Definition js_classStart (className : string) (s : JSSt) : JSSt :=
  let s1 := mkJS true (js_firstClass s) (js_out s) in
  let s2 := if js_firstClass s1 then mkJS (js_firstMethod s1) false (js_out s1)
            else js_write ("," ++ nl) s1 in
  js_write (nl ++ "  '" ++ replace_char "_" "/" className ++ "': {" ++ nl) s2.

(** [classEnd] (lines 603-605). *)
Definition js_classEnd (className : string) (s : JSSt) : JSSt :=
  js_write (nl ++ nl ++ "  }") s.

(** The argument list built by the [for] loop of lines 608-614. *)
Definition js_argSig (isStatic : bool) (argTypes : list string) : string :=
  fold_left (fun acc i => acc ++ ", arg" ++ show_nat i) (seq 0 (length argTypes))
            ("thread" ++ (if isStatic then "" else ", javaThis")).

Definition js_unsatisfied : string :=
  "      thread.throwNewException('Ljava/lang/UnsatisfiedLinkError;', 'Native method not implemented.');".

(** [method] (lines 606-622). *)
Definition js_method (classDesc methodName : string) (isStatic : bool) (argTypes : list string)
    (rType : string) (s : JSSt) : JSSt :=
  let argSig := js_argSig isStatic argTypes in
  let s1 := if js_firstMethod s then mkJS false (js_firstClass s) (js_out s)
            else js_write ("," ++ nl) s in
  js_write (nl ++ "    }")
    (js_write (nl ++ js_unsatisfied)
       (js_write (nl ++ "    '" ++ methodName ++ "': function(" ++ argSig ++ ") {") s1)).

Definition js_call (c : TemplateCall) (s : JSSt) : JSSt :=
  match c with
  | CallClassStart n => js_classStart n s
  | CallMethod cd mn st ats rt => js_method cd mn st ats rt s
  | CallClassEnd n => js_classEnd n s
  end.

(** One turn of the main loop (lines 661-664) with the JavaScript template. *)
Definition js_processClass (load : string -> option RefClass) (depth : nat) (d : string)
    (t : JSSt) : M JSSt :=
  let* c := findClass load depth d in
  match c with
  | RefCD r => ret (fold_left (fun t c => js_call c t) (processClassData r) t)
  | _ => throw EType
  end.

Fixpoint js_loop (load : string -> option RefClass) (depth : nat) (classes : list string)
    (t : JSSt) : M JSSt :=
  match classes with
  | [] => ret t
  | d :: ds => let* t' := js_processClass load depth d t in js_loop load depth ds t'
  end.

(** The callback of lines 652-670 with the JavaScript template: the text
    of the stub file. *)
Definition js_run (load : string -> option RefClass) (depth : nat) (classes : list string) : M string :=
  let* t := js_loop load depth classes (js_fileStart js_init) in
  ret (js_out (js_fileEnd t)).

(** The class name [processClassData] passes to the template. *)
Definition fixedClassName (r : RefClass) : string :=
  let n := replace_char "/" "_" (rc_name r) in
  substring 1 (String.length n - 2) n.

(** The text the JavaScript template writes for one native method and for
    one class with native methods. *)
Definition js_method_text (m : Method) : string :=
  nl ++ "    '" ++ m_signature m ++ "': function(" ++ js_argSig (m_isStatic m) (m_parameterTypes m)
  ++ ") {" ++ nl ++ js_unsatisfied ++ nl ++ "    }".
Definition js_block (r : RefClass) : string :=
  nl ++ "  '" ++ replace_char "_" "/" (fixedClassName r) ++ "': {" ++ nl
  ++ join ("," ++ nl) (map js_method_text (List.filter m_isNative (rc_methods r)))
  ++ nl ++ nl ++ "  }".

(** One entry of the [registerNatives] object written by [TSTemplate.fileEnd]. *)
Definition ts_export_entry (n : string) : string :=
  nl ++ "  '" ++ replace_char "_" "/" n ++ "': " ++ n.

(* ------------------------------------------------------------------ *)
(** ** Closed forms used to state properties of the code above *)

(** [i] has an entry at [item] ([i.stat(item)] is not null). *)
Definition has_it (item : string) (i : ClasspathItem) : bool :=
  match stat_of i item with Some _ => true | None => false end.

(** Every descriptor found in a directory comes from a .class file. *)
Definition from_class_files (path_extname : string -> string) (rv : list string) : Prop :=
  forall d, d ∈ rv -> exists p, path_extname p = ".class" /\ d = file2desc p.

(** The descriptors of the files listed in directory [item] of [j]. *)
Definition dir_classes (path_join : string -> string -> string) (item : string) (j : ClasspathItem) : list string :=
  match tryReaddirSync j item with
  | Some l => map (fun e => file2desc (path_join item e)) l
  | None => []
  end.

(** A class has a native method. *)
Definition has_native (r : RefClass) : bool := existsb m_isNative (rc_methods r).

(** What one class does to the JavaScript template. *)
Definition js_class_step (t : JSSt) (r : RefClass) : JSSt :=
  if has_native r
  then mkJS false false (js_out t ++ (if js_firstClass t then "" else "," ++ nl) ++ js_block r)
  else t.

(** One iteration of the export loop of [TSTemplate.fileEnd]. *)
Definition export_piece (ik : nat * string) : string :=
  (if Nat.ltb 0 ik.1 then "," else "") ++ ts_export_entry ik.2.

Definition seen_same (s s' : St) : Prop := st_classesSeen s' = st_classesSeen s.

(** The class names a template call adds to [classesSeen]. *)
Definition call_starts (c : TemplateCall) : list string :=
  match c with CallClassStart n => [n] | _ => [] end.

Definition throw_line : string :=
  "    thread.throwNewException('Ljava/lang/UnsatisfiedLinkError;', 'Native method not implemented.');".

(** The line a TypeScript stub returns with, by the first character of its
    return descriptor. *)
Definition return_line (rType : string) : string :=
  match rType with
  | String c _ =>
      if Ascii.eqb c "V" then ""
      else if Ascii.eqb c "J" || Ascii.eqb c "L" || Ascii.eqb c "[" then nl ++ "    return null;"
      else nl ++ "    return 0;"
  | EmptyString => nl ++ "    return 0;"
  end.

(** The TypeScript signature [_outputMethod] gives a method, with the
    type names of [jvmtype2tstype] written as [ts_name]. *)
Definition method_sig (m : Method) : string :=
  let rvSig := if String.eqb (m_returnType m) "V" then ""
               else ", rv?: " ++ ts_name false (m_returnType m) in
  let args := match m_parameterTypes m with
              | [] => "args: {}[]"
              | ps => "args: [" ++ join ", " (map (fun ty => ts_name false ty ++
                        (if String.eqb ty "J" || String.eqb ty "D" then ", any" else "")) ps) ++ "]"
              end in
  "(thread: JVMThread, " ++ args ++ ", cb?: (" ++ "e?: java_lang_Throwable" ++ rvSig ++ ") => void): void".

(** The modifiers [_outputMethod] writes before a class method. *)
Definition method_flags (m : Method) : string := "public" ++ (if m_isStatic m then " static" else "").

(** The header of [s'] extends the header of [s]. *)
Definition hdr_prefix (s s' : St) : Prop := exists t, st_header s' = st_header s ++ t.

(** A classpath item with a directory [pkg] holding [A.class] and a file
    [Foo.class], with a slash-joining [path.join] and an [extname] that
    recognises [.class]. *)
Definition sample_dir_item : ClasspathItem :=
  mkItem (fun p => if String.eqb p "pkg" then Some true
                   else if String.eqb p "Foo.class" then Some false else None)
         (fun p => if String.eqb p "pkg" then Some ["A.class"] else None)
         (fun _ => INDETERMINATE) (fun _ => None).
Definition sample_join (a b : string) : string := a ++ "/" ++ b.
Definition sample_extname (p : string) : string :=
  if String.eqb (substring (String.length p - 6) 6 p) ".class" then ".class" else "".

(* ================================================================== *)
(** * Proofs *)

Local Arguments bind : simpl never.
Local Arguments ret : simpl never.

(** ** String lemmas *)

Lemma str_app_assoc (x y z : string) : x ++ (y ++ z) = (x ++ y) ++ z.
Proof. induction x as [|a x IH]; simpl; [done|]. by rewrite IH. Qed.

Lemma str_app_nil (x : string) : x ++ "" = x.
Proof. induction x as [|a x IH]; simpl; [done|]. by rewrite IH. Qed.

Lemma replace_char_app c r x y :
  replace_char c r (x ++ y) = replace_char c r x ++ replace_char c r y.
Proof.
  induction x as [|a x IH]; simpl; [done|].
  destruct (Ascii.eqb a c); simpl; rewrite IH; [by rewrite str_app_assoc|done].
Qed.

Lemma sanitize_cons a r :
  sanitize (String a r) =
  (if Ascii.eqb a "_" then "__" else if Ascii.eqb a "/" then "_" else String a EmptyString)
  ++ sanitize r.
Proof.
  unfold sanitize. simpl.
  destruct (Ascii.eqb a "_") eqn:E1.
  - apply Ascii.eqb_eq in E1; subst. simpl. done.
  - simpl. destruct (Ascii.eqb a "/"); done.
Qed.

(** Undoing the first substitution of the decoder. *)
Lemma unslash_sanitize n :
  replace_char "_" "/" (sanitize n) = replace_char "_" "//" n.
Proof.
  induction n as [|a n IH]; [done|].
  rewrite sanitize_cons, replace_char_app, IH. simpl.
  destruct (Ascii.eqb a "_") eqn:E1; [done|].
  destruct (Ascii.eqb a "/") eqn:E2; simpl.
  - apply Ascii.eqb_eq in E2; subst. done.
  - rewrite E1. done.
Qed.

Lemma replace_dslash_cons a t :
  Ascii.eqb a "/" = false -> replace_dslash (String a t) = String a (replace_dslash t).
Proof. intros H. destruct t; simpl; rewrite ?H; done. Qed.

Lemma replace_dslash_double n :
  name_ok n = true -> replace_dslash (replace_char "_" "//" n) = n.
Proof.
  induction n as [|a n IH]; intros Hok; [done|].
  assert (Hn : name_ok n = true).
  { destruct n as [|b n']; [done|]. simpl in Hok. apply andb_prop in Hok. tauto. }
  simpl. destruct (Ascii.eqb a "_") eqn:E1.
  - apply Ascii.eqb_eq in E1; subst. simpl. rewrite IH; done.
  - destruct (Ascii.eqb a "/") eqn:E2.
    + apply Ascii.eqb_eq in E2; subst.
      specialize (IH Hn).
      destruct n as [|b n']; [done|].
      simpl in Hok. apply andb_prop in Hok as [Hb _].
      destruct (Ascii.eqb b "/") eqn:Eb; [done|].
      destruct (Ascii.eqb b "_") eqn:Eu; [done|].
      simpl in IH |- *. rewrite Eu in IH |- *. simpl. rewrite Eb. simpl. f_equal.
      rewrite <- IH. destruct (replace_char "_" "//" n'); simpl; rewrite ?Eb; reflexivity.
    + rewrite replace_dslash_cons by done. rewrite IH; done.
Qed.

Lemma decode_sanitize n :
  name_ok n = true -> replace_dslash (replace_char "_" "/" (sanitize n)) = n.
Proof. intros H. rewrite unslash_sanitize. by apply replace_dslash_double. Qed.

Lemma prefix_sanitize p n :
  no_us_slash p = true -> String.prefix p (sanitize n) = String.prefix p n.
Proof.
  revert n. induction p as [|c p IH]; intros n Hp; [destruct (sanitize n), n; done|].
  simpl in Hp. apply andb_prop in Hp as [Hc Hp]. apply andb_prop in Hc as [Hc1 Hc2].
  apply negb_true_iff in Hc1, Hc2.
  destruct n as [|a n]; [done|].
  rewrite sanitize_cons.
  destruct (Ascii.eqb a "_") eqn:E1; [|destruct (Ascii.eqb a "/") eqn:E2].
  - apply Ascii.eqb_eq in E1; subst. simpl.
    destruct (ascii_dec c "_"); [subst; done|].
    destruct (ascii_dec c "_"); done.
  - apply Ascii.eqb_eq in E2; subst. simpl.
    destruct (ascii_dec c "_"); [subst; done|].
    destruct (ascii_dec c "/"); [subst; done|done].
  - simpl. destruct (ascii_dec c a); [|done]. by apply IH.
Qed.

Lemma substring_app_l p s n m :
  substring (String.length p + n) m (p ++ s) = substring n m s.
Proof. induction p as [|a p IH]; [done|]. simpl. destruct m; apply IH. Qed.

Lemma substring_prefix t u :
  substring 0 (String.length t) (t ++ u) = t.
Proof. induction t as [|a t IH]; simpl; [by destruct u|]. by rewrite IH. Qed.

Lemma length_app_str x y : String.length (x ++ y) = String.length x + String.length y.
Proof. induction x; simpl; auto. Qed.

Lemma descriptor2typestr_ref n : descriptor2typestr ("L" ++ n ++ ";") = n.
Proof.
  unfold descriptor2typestr. simpl. rewrite length_app_str. simpl.
  replace (String.length n + 1 - 1) with (String.length n) by lia.
  apply substring_prefix.
Qed.

Lemma substring_length_le n m s : String.length (substring n m s) <= m.
Proof.
  revert n m. induction s as [|c s IH]; intros [|n] [|m]; simpl; try lia.
  - specialize (IH 0 m). lia.
  - apply IH.
  - apply IH.
Qed.

(** ** The name conversions *)

Lemma bind_ok {A B} (m : M A) (k : A -> M B) s b s'' :
  bind m k s = (Ok b, s'') -> exists a s', m s = (Ok a, s') /\ k a s' = (Ok b, s'').
Proof. unfold bind. destruct (m s) as [[a|e] s']; intros H; [eauto|discriminate]. Qed.

Lemma ret_ok {A} (a b : A) s s' : ret a s = (Ok b, s') -> a = b /\ s = s'.
Proof. unfold ret. intros H. injection H. auto. Qed.

(** The string [jvmtype2tstype] returns is [ts_name]. *)
Lemma jvmtype2tstype_value load depth prefix d s t s' :
  jvmtype2tstype load depth prefix d s = (Ok t, s') -> t = ts_name prefix d.
Proof.
  revert s t s'. induction d as [|c rest IH]; intros s t s' H; simpl in H |- *.
  - apply ret_ok in H as [<- _]. done.
  - destruct (Ascii.eqb c "[").
    + apply bind_ok in H as (t0 & s0 & H1 & H2). apply IH in H1. subst.
      apply ret_ok in H2 as [<- _]. done.
    + destruct (Ascii.eqb c "L").
      * apply bind_ok in H as (t0 & s0 & H1 & H2). apply ret_ok in H2 as [<- _]. done.
      * destruct (Ascii.eqb c "J"); [apply ret_ok in H as [<- _]; done|].
        destruct (Ascii.eqb c "V"); apply ret_ok in H as [<- _]; done.
Qed.

Lemma tstype2jvmtype_aux_fuel f t :
  String.length t < f -> tstype2jvmtype_aux f t = tstype2jvmtype t.
Proof.
  unfold tstype2jvmtype. remember (S (String.length t)) as g eqn:Hg.
  assert (Hlt : String.length t < g) by lia. clear Hg.
  revert g t Hlt. induction f as [|f IH]; intros [|g] t Hlt Hf; try lia.
  simpl. destruct (String.prefix "JVMArray" t) eqn:Hp; [|done].
  destruct t as [|a t']; [discriminate|].
  rewrite (IH g); [done| |];
    pose proof (substring_length_le 9 (String.length (String a t') - 1 - 9) (String a t'));
    simpl in *; lia.
Qed.

Lemma ts_name_ref n : ts_name false ("L" ++ n ++ ";") = sanitize n.
Proof.
  change (ts_name false ("L" ++ n ++ ";")) with (sanitize (descriptor2typestr ("L" ++ n ++ ";"))).
  by rewrite descriptor2typestr_ref.
Qed.

Lemma sanitize_eq_literal n lit :
  name_ok n = true -> sanitize n = lit -> n = replace_dslash (replace_char "_" "/" lit).
Proof. intros Hok <-. by rewrite decode_sanitize. Qed.

(** C2 (corrected): decoding the unqualified TypeScript name of a
    reference type gives the descriptor back when no ['/'] of its internal
    name is followed by ['/'] or ['_'], and the name is not one the decoder
    treats specially ([JVMArray...], [number], [void]). *)
Theorem C2_roundtrip_amended load depth (n : string) s t s' :
  name_ok n = true ->
  String.prefix "JVMArray" n = false -> n <> "number" -> n <> "void" ->
  jvmtype2tstype load depth false ("L" ++ n ++ ";") s = (Ok t, s') ->
  tstype2jvmtype t = Ok ("L" ++ n ++ ";").
Proof.
  intros Hok Hp Hnum Hvoid H.
  apply jvmtype2tstype_value in H. rewrite ts_name_ref in H. subst t.
  unfold tstype2jvmtype. simpl.
  rewrite prefix_sanitize by reflexivity. rewrite Hp.
  destruct (String.eqb (sanitize n) "number") eqn:E1.
  { apply String.eqb_eq, sanitize_eq_literal in E1; [|done]. simpl in E1. congruence. }
  destruct (String.eqb (sanitize n) "void") eqn:E2.
  { apply String.eqb_eq, sanitize_eq_literal in E2; [|done]. simpl in E2. congruence. }
  by rewrite decode_sanitize.
Qed.

Lemma C2_roundtrip_amended_witness :
  tstype2jvmtype "java_lang_Foo__Bar" = Ok "Ljava/lang/Foo_Bar;".
Proof.
  apply (C2_roundtrip_amended sample_load 8 "java/lang/Foo_Bar" st_init "java_lang_Foo__Bar"
           (snd (jvmtype2tstype sample_load 8 false "Ljava/lang/Foo_Bar;" st_init)));
    [reflexivity | reflexivity | discriminate | discriminate | vm_compute; reflexivity].
Defined.

(** C2 counterexample: [La/_b;] encodes to [a___b], which decodes to [La_/b;]. *)
Lemma C2_roundtrip_cex :
  fst (jvmtype2tstype sample_load 8 false "La/_b;" st_init) = Ok "a___b" /\
  tstype2jvmtype "a___b" = Ok "La_/b;" /\ "La_/b;" <> "La/_b;".
Proof. split; [vm_compute; reflexivity | split; [reflexivity | discriminate]]. Qed.

(** The name of a JVM array wrapper around [t]. *)
Lemma tstype2jvmtype_array t :
  tstype2jvmtype ("JVMArray<" ++ t ++ ">") =
  match tstype2jvmtype t with Ok r => Ok ("[" ++ r) | Err e => Err e end.
Proof.
  set (u := "JVMArray<" ++ t ++ ">").
  assert (Hlen : String.length u = 10 + String.length t).
  { subst u. change (String.length ("JVMArray<" ++ t ++ ">")) with (9 + String.length (t ++ ">")).
    rewrite length_app_str. simpl. lia. }
  assert (Hsub : substring 9 (String.length u - 1 - 9) u = t).
  { rewrite Hlen. replace (10 + String.length t - 1 - 9) with (String.length t) by lia.
    subst u. change 9 with (String.length "JVMArray<" + 0). rewrite substring_app_l.
    apply substring_prefix. }
  assert (Hp : String.prefix "JVMArray" u = true) by reflexivity.
  unfold tstype2jvmtype at 1. cbn [tstype2jvmtype_aux]. rewrite Hp, Hsub.
  rewrite tstype2jvmtype_aux_fuel; [done | lia].
Qed.

(** C3 (corrected): decoding fails with the ambiguity error on [number]
    and on every array wrapper, however deep, around the name of a
    primitive other than long and void (so on the name of [[[I]); [void]
    decodes to [V] and [Long] to the reference descriptor [LLong;]. *)
Theorem C3_ambiguous_amended (k : nat) (c : ascii) :
  In c ["B"; "C"; "D"; "F"; "I"; "S"; "Z"]%char ->
  tstype2jvmtype (ts_name false (array_of k (String c EmptyString))) = Err EAmbiguous /\
  tstype2jvmtype "number" = Err EAmbiguous /\
  tstype2jvmtype "void" = Ok "V" /\
  tstype2jvmtype "Long" = Ok "LLong;".
Proof.
  intros Hc. split; [|split; [reflexivity | split; reflexivity]].
  induction k as [|k IH].
  - simpl in Hc. destruct Hc as [<-|[<-|[<-|[<-|[<-|[<-|[<-|[]]]]]]]]; reflexivity.
  - change (ts_name false (array_of (S k) (String c EmptyString)))
      with ("JVMArray<" ++ ts_name false (array_of k (String c EmptyString)) ++ ">").
    rewrite tstype2jvmtype_array. by rewrite IH.
Qed.

Lemma C3_ambiguous_amended_witness :
  tstype2jvmtype (ts_name false "[[I") = Err EAmbiguous.
Proof.
  refine (proj1 (C3_ambiguous_amended 2 "I" _)). simpl. tauto.
Defined.

(** C3 counterexample: [void] and [Long] are decoded, not rejected. *)
Lemma C3_ambiguous_cex :
  tstype2jvmtype "void" = Ok "V" /\ tstype2jvmtype "Long" = Ok "LLong;".
Proof. split; reflexivity. Qed.

(** ** Frame lemmas *)

(** The class [findClass] builds on a cache miss is [expected_class]. *)
Lemma build_value load (fc : string -> M ClassData) d s a s' :
  buildClass load fc d s = (Ok a, s') ->
  expected_class load d = Some a.
Proof.
  intros H. unfold expected_class. unfold buildClass in H.
  destruct (is_char (first_char d) "L"); [|destruct (is_char (first_char d) "[")];
    [|apply ret_ok in H as [<- _]; done..].
  destruct (load (descriptor2typestr d)) as [r|]; [|discriminate].
  apply bind_ok in H as (? & ? & _ & H). apply bind_ok in H as (? & ? & _ & H).
  apply ret_ok in H as [<- _]. reflexivity.
Qed.

Section Frame.

Variable R : St -> St -> Prop.
Hypothesis R_refl : forall s, R s s.
Hypothesis R_trans : forall s1 s2 s3, R s1 s2 -> R s2 s3 -> R s1 s3.
Variable load : string -> option RefClass.

Lemma pres_ret {A} (a : A) : pres R (ret a).
Proof. intros s. apply R_refl. Qed.

Lemma pres_throw {A} (e : Exn) : pres R (@throw A e).
Proof. intros s. apply R_refl. Qed.

Lemma pres_gets {A} (f : St -> A) : pres R (gets f).
Proof. intros s. apply R_refl. Qed.

Lemma pres_modify (f : St -> St) : (forall s, R s (f s)) -> pres R (modify f).
Proof. intros H s. apply H. Qed.

Lemma pres_bind {A B} (m : M A) (k : A -> M B) :
  pres R m -> (forall a, pres R (k a)) -> pres R (bind m k).
Proof.
  intros Hm Hk s. unfold bind. specialize (Hm s).
  destruct (m s) as [[a|e] s'] eqn:E; simpl in *; [|done].
  eapply R_trans; [exact Hm|apply Hk].
Qed.

Lemma pres_catch {A} (m : M A) (h : Exn -> M A) :
  pres R m -> (forall e, pres R (h e)) -> pres R (catch m h).
Proof.
  intros Hm Hh s. unfold catch. specialize (Hm s).
  destruct (m s) as [[a|e] s'] eqn:E; simpl in *; [done|].
  eapply R_trans; [exact Hm|apply Hh].
Qed.

Lemma pres_mapM {A B} (f : A -> M B) xs : (forall x, pres R (f x)) -> pres R (mapM f xs).
Proof.
  intros Hf. induction xs as [|x xs IH]; simpl; [apply pres_ret|].
  apply pres_bind; [done|]. intros y. apply pres_bind; [done|]. intros ys. apply pres_ret.
Qed.

Lemma pres_forEach {A} (f : A -> M unit) xs : (forall x, pres R (f x)) -> pres R (forEach f xs).
Proof.
  intros Hf. induction xs as [|x xs IH]; simpl; [apply pres_ret|].
  apply pres_bind; [done|]. intros _. done.
Qed.

Ltac pres_solve :=
  repeat (match goal with
          | |- forall _, _ => intros ?
          | |- pres _ (bind _ _) => apply pres_bind; [|intros ?]
          | |- pres _ (ret _) => apply pres_ret
          | |- pres _ (throw _) => apply pres_throw
          | |- pres _ (gets _) => apply pres_gets
          | |- pres _ (catch _ _) => apply pres_catch; [|intros ?]
          | |- pres _ (mapM _ _) => apply pres_mapM; intros ?
          | |- pres _ (forEach _ _) => apply pres_forEach; intros ?
          | |- pres _ (if ?b then _ else _) => destruct b
          | |- pres _ (match ?x with _ => _ end) => destruct x
          | |- pres _ _ => progress cbv beta
          end).

Hypothesis H_log : forall d s, R s (log_call d s).
Hypothesis H_cache :
  forall d c s, expected_class load d = Some c -> R s (upd_cache (insert d c) s).

(** A bind whose continuation only needs to be framed on the values [m]
    can return. *)
Lemma pres_bind_post {A B} (Q : A -> Prop) (m : M A) (k : A -> M B) :
  (forall s a s', m s = (Ok a, s') -> Q a) ->
  pres R m -> (forall a, Q a -> pres R (k a)) -> pres R (bind m k).
Proof.
  intros HQ Hm Hk s. unfold bind. specialize (Hm s). specialize (HQ s).
  destruct (m s) as [[a|e] s'] eqn:E; simpl in *; [|done].
  eapply R_trans; [exact Hm|]. apply Hk. eauto.
Qed.

Lemma pres_findClass n d : pres R (findClass load n d).
Proof.
  revert d. induction n as [|n IH]; intros d; [apply pres_throw|].
  apply pres_bind; [apply pres_modify, H_log|]. intros _ s. cbv beta.
  destruct (st_cache s !! d); [apply R_refl|].
  refine (pres_catch _ _ _ _ s); [|pres_solve].
  apply (pres_bind_post (fun rv => expected_class load d = Some rv)).
  - intros s0 a s0' H. exact (build_value load (findClass load n) d s0 a s0' H).
  - unfold buildClass. pres_solve; exact (IH _).
  - intros a Ha. apply pres_bind; [apply pres_modify; intros; by apply H_cache|].
    intros _. apply pres_ret.
Qed.

(** [enqueue] is framed as soon as marking and pushing are. *)
Lemma pres_enqueue_of depth d :
  (forall s, R s (add_header_set d s)) -> (forall c s, R s (push_queue d c s)) ->
  pres R (enqueue load depth d).
Proof.
  intros Ha Hp. unfold enqueue. apply pres_bind; [by apply pres_modify|]. intros _.
  apply pres_bind; [apply pres_findClass|]. intros c. by apply pres_modify.
Qed.

Hypothesis H_enqueue : forall depth d s, d ∉ st_headerSet s ->
  is_primitive_type d = false -> first_char d <> Some "["%char -> R s (snd (enqueue load depth d s)).
Hypothesis H_header : forall t s, R s (append_header t s).
Hypothesis H_count : forall s, R s (incr_count s).
Hypothesis H_pop : forall d c q s, st_queue s = (d, c) :: q -> R s (pop_queue d q s).

Lemma gcd_skip_not_in d s b :
  bool_decide (d ∈ st_headerSet s) || b = false -> d ∉ st_headerSet s.
Proof. intros E. apply orb_false_iff in E as [E _]. by apply bool_decide_eq_false in E. Qed.

Lemma gcd_skip_not_prim d s :
  bool_decide (d ∈ st_headerSet s) || is_primitive_type d = false -> is_primitive_type d = false.
Proof. intros E. by apply orb_false_iff in E as [_ E]. Qed.

Lemma pres_generateClassDefinition depth d : pres R (generateClassDefinition load depth d).
Proof.
  induction d as [|c rest IH]; intros s; simpl.
  - destruct (bool_decide _ || _) eqn:E; [apply R_refl|].
    apply H_enqueue; [by eapply gcd_skip_not_in | by eapply gcd_skip_not_prim | done].
  - destruct (bool_decide _ || _) eqn:E; [apply R_refl|].
    destruct (Ascii.eqb c "[") eqn:Ec; [apply IH|].
    apply H_enqueue; [by eapply gcd_skip_not_in | by eapply gcd_skip_not_prim |].
    simpl. intros [= ->]. done.
Qed.

Lemma pres_jvmtype2tstype depth prefix d : pres R (jvmtype2tstype load depth prefix d).
Proof.
  induction d as [|c rest IH]; cbn [jvmtype2tstype]; [apply pres_ret|].
  destruct (Ascii.eqb c "["); [apply pres_bind; [apply IH|intros ?; apply pres_ret]|].
  destruct (Ascii.eqb c "L");
    [apply pres_bind; [apply pres_generateClassDefinition|intros ?; apply pres_ret]|].
  repeat destruct (Ascii.eqb _ _); apply pres_ret.
Qed.

Ltac hdr_solve :=
  repeat (progress (pres_solve;
          try first [ apply pres_jvmtype2tstype
                    | apply pres_generateClassDefinition
                    | apply pres_findClass
                    | unfold write_header; apply pres_modify; intros ?; apply H_header
                    | apply pres_modify; intros ?; apply H_count ])).

Lemma pres_outputMethod depth m : pres R (outputMethod load depth m).
Proof. unfold outputMethod. cbv zeta. hdr_solve. Qed.

Lemma pres_outputField depth f : pres R (outputField load depth f).
Proof. unfold outputField. hdr_solve. Qed.

Lemma pres_processHeader depth c : pres R (processHeader load depth c).
Proof.
  unfold processHeader, processHeaderBases, outputInjectedField, outputInjectedMethod,
    outputInjectedStaticMethod.
  hdr_solve; first [apply pres_outputField | apply pres_outputMethod].
Qed.

Lemma pres_processGenerateQueue depth fuel : pres R (processGenerateQueue load depth fuel).
Proof.
  induction fuel as [|f IH]; intros s; simpl;
    (destruct (st_queue s) as [|[d c] q] eqn:Eq; [apply R_refl|]); [apply R_refl|].
  eapply R_trans; [apply (H_pop d c q s Eq)|].
  refine (pres_bind _ _ _ _ _); [apply pres_processHeader|intros _; apply IH].
Qed.

Lemma pres_replayPass depth fuel pat skip h idx : pres R (replayPass load depth fuel pat skip h idx).
Proof.
  revert idx. induction fuel as [|f IH]; intros idx; simpl; hdr_solve; apply IH.
Qed.

Lemma pres_replayHeaders depth existing : pres R (replayHeaders load depth existing).
Proof. unfold replayHeaders. hdr_solve; apply pres_replayPass. Qed.

Lemma pres_tsTemplate_new depth existing p force : pres R (tsTemplate_new load depth existing p force).
Proof. unfold tsTemplate_new. hdr_solve. apply pres_replayHeaders. Qed.

Lemma pres_headersEnd depth fuel : pres R (headersEnd load depth fuel).
Proof. unfold headersEnd. hdr_solve. apply pres_processGenerateQueue. Qed.

Hypothesis H_stub : forall t s, R s (append_stub t s).
Hypothesis H_seen : forall n s, R s (add_class_seen n s).

Ltac tpl_solve :=
  repeat (progress (hdr_solve;
          try first [ unfold write_stub; apply pres_modify; intros ?; apply H_stub
                    | apply pres_modify; intros ?; apply H_seen ])).

Lemma pres_ts_fileStart p : pres R (ts_fileStart p).
Proof. unfold ts_fileStart. tpl_solve. Qed.

Lemma pres_ts_fileEnd : pres R ts_fileEnd.
Proof. unfold ts_fileEnd. tpl_solve. Qed.

Lemma pres_ts_classStart depth n : pres R (ts_classStart load depth n).
Proof. unfold ts_classStart. tpl_solve. Qed.

Lemma pres_ts_method depth cd mn st ats rt : pres R (ts_method load depth cd mn st ats rt).
Proof. unfold ts_method. cbv zeta. tpl_solve. Qed.

Lemma pres_ts_call depth c : pres R (ts_call load depth c).
Proof.
  destruct c; simpl;
    [apply pres_ts_classStart | apply pres_ts_method | unfold ts_classEnd; tpl_solve].
Qed.

Lemma pres_processClass depth d : pres R (processClass load depth d).
Proof. unfold processClass. tpl_solve. apply pres_ts_call. Qed.

Lemma pres_run depth e p force classes fuel : pres R (run load depth e p force classes fuel).
Proof.
  unfold run. tpl_solve;
    first [apply pres_tsTemplate_new | apply pres_ts_fileStart | apply pres_processClass
          | apply pres_ts_fileEnd | apply pres_headersEnd].
Qed.

End Frame.

(* ------------------------------------------------------------------ *)
(** ** The worklist *)

Lemma same_but_cache_findClass load n d : pres same_but_cache (findClass load n d).
Proof. eapply pres_findClass; unfold same_but_cache; simpl; intros; intuition congruence. Qed.

Lemma worklist_inv_enqueue load depth d s :
  d ∉ st_headerSet s -> worklist_inv s -> worklist_inv (snd (enqueue load depth d s)).
Proof.
  intros Hd (Hnd & Hsub & Hperm). unfold enqueue, bind, modify.
  pose proof (same_but_cache_findClass load depth d (add_header_set d s)) as Hs.
  destruct (findClass load depth d (add_header_set d s)) as [[c|e] s2]; simpl in *;
    destruct Hs as (Hh & Hq & _ & _ & _ & _ & Hp & He); simpl in *;
    unfold worklist_inv; simpl; rewrite ?Hh, ?Hq, ?Hp, ?He.
  - split_and!.
    + apply NoDup_app. split_and!; [done| |apply NoDup_singleton].
      intros x Hx ->%list_elem_of_singleton. apply Hd, Hsub, Hx.
    + intros x [Hx| ->%list_elem_of_singleton]%elem_of_app; set_solver.
    + rewrite Hperm. simpl. rewrite <- app_assoc. apply Permutation_app_head.
      symmetry. apply Permutation_cons_append.
  - split_and!; [done| set_solver | done].
Qed.

Lemma worklist_inv_pop d c q s :
  st_queue s = (d, c) :: q -> worklist_inv s -> worklist_inv (pop_queue d q s).
Proof.
  intros Hq (Hnd & Hsub & Hperm). unfold worklist_inv; simpl. split_and!; [done|done|].
  rewrite Hperm, Hq. simpl. rewrite <- app_assoc. done.
Qed.

Lemma worklist_inv_run load depth e p force classes fuel s :
  worklist_inv s -> worklist_inv (snd (run load depth e p force classes fuel s)).
Proof.
  revert s. eapply (pres_run (fun s s' => worklist_inv s -> worklist_inv s'));
    intros; first [ by eapply worklist_inv_enqueue | by eapply worklist_inv_pop
                  | tauto | (unfold worklist_inv in *; simpl in *; tauto) ].
Qed.

Lemma processGenerateQueue_ok load depth fuel s u s' :
  processGenerateQueue load depth fuel s = (Ok u, s') -> st_queue s' = [].
Proof.
  revert s. induction fuel as [|f IH]; intros s H; simpl in H;
    (destruct (st_queue s) as [|[d c] q] eqn:Eq; [injection H as _ <-; done|]);
    [discriminate|].
  apply bind_ok in H as (a & s1 & _ & H). eauto.
Qed.

Lemma run_ok_queue load depth e p force classes fuel s s' :
  run load depth e p force classes fuel s = (Ok tt, s') -> st_queue s' = [].
Proof.
  unfold run. intros H.
  do 4 (apply bind_ok in H as (? & ? & _ & H)).
  unfold headersEnd in H. apply bind_ok in H as (? & ? & H1 & H).
  apply processGenerateQueue_ok in H1. unfold write_header, modify in H.
  injection H as <-. done.
Qed.

Lemma worklist_inv_init : worklist_inv st_init.
Proof. unfold worklist_inv; simpl. split_and!; [constructor|set_solver|done]. Qed.

(** C7. In every run from the initial state, whatever its outcome, no
    descriptor is pushed onto the header worklist twice, and every pushed
    descriptor had been marked in the membership set, which
    [generateClassDefinition] consults before each push. When the run
    completes, the descriptors emitted as declarations are exactly the
    pushed ones, each emitted once. *)
Theorem C7_worklist_once load depth e p force classes fuel :
  NoDup (st_pushed (snd (run load depth e p force classes fuel st_init))) /\
  (forall d, d ∈ st_pushed (snd (run load depth e p force classes fuel st_init)) ->
             d ∈ st_headerSet (snd (run load depth e p force classes fuel st_init))) /\
  (fst (run load depth e p force classes fuel st_init) = Ok tt ->
   NoDup (st_emitted (snd (run load depth e p force classes fuel st_init))) /\
   st_emitted (snd (run load depth e p force classes fuel st_init))
     ≡ₚ st_pushed (snd (run load depth e p force classes fuel st_init))).
Proof.
  pose proof (worklist_inv_run load depth e p force classes fuel st_init worklist_inv_init)
    as (Hnd & Hsub & Hperm).
  split_and!; [done|done|]. intros Hok.
  destruct (run load depth e p force classes fuel st_init) as [r s'] eqn:Er.
  simpl in *. subst r. apply run_ok_queue in Er. rewrite Er in Hperm. simpl in Hperm.
  rewrite app_nil_r in Hperm. split; [by rewrite <- Hperm | by symmetry].
Qed.

Lemma C7_worklist_once_witness :
  fst (run sample_load 50 None "doppiojvm" [] ["LFoo;"] 100 st_init) = Ok tt /\
  st_emitted (snd (run sample_load 50 None "doppiojvm" [] ["LFoo;"] 100 st_init))
    ≡ₚ st_pushed (snd (run sample_load 50 None "doppiojvm" [] ["LFoo;"] 100 st_init)).
Proof.
  assert (H : fst (run sample_load 50 None "doppiojvm" [] ["LFoo;"] 100 st_init) = Ok tt)
    by (vm_compute; reflexivity).
  split; [exact H|].
  exact (proj2 (proj2 (proj2 (C7_worklist_once sample_load 50 None "doppiojvm" [] ["LFoo;"] 100)) H)).
Defined.

(* ------------------------------------------------------------------ *)
(** ** Framing with a [frame] relation *)

Lemma frame_enqueue R load (F : frame R load) depth d s :
  d ∉ st_headerSet s -> is_primitive_type d = false -> first_char d <> Some "["%char ->
  R s (snd (enqueue load depth d s)).
Proof.
  intros _ _ _. revert s. destruct F. eapply pres_enqueue_of; eauto.
Qed.

Ltac frame_from F :=
  first [ exact (fr_refl _ _ F) | exact (fr_trans _ _ F)
        | exact (fr_log _ _ F) | exact (fr_log _ _ F _) | exact (fr_cache _ _ F)
        | exact (fr_header _ _ F) | exact (fr_header _ _ F _) | exact (fr_count _ _ F)
        | exact (fr_add _ _ F) | exact (fr_add _ _ F _) | exact (fr_push _ _ F)
        | exact (fr_push _ _ F _ _) | exact (fr_pop _ _ F) | exact (frame_enqueue _ _ F) ].

Ltac tframe_from T :=
  first [ frame_from (tf_h _ _ T)
        | exact (tf_stub _ _ T) | exact (tf_stub _ _ T _)
        | exact (tf_seen _ _ T) | exact (tf_seen _ _ T _) ].

(** Framing a whole computation, given a tactic [fr] for the elementary
    updates. *)
Ltac gpres fr :=
  repeat (first
    [ fr
    | eapply pres_findClass | eapply pres_generateClassDefinition | eapply pres_jvmtype2tstype
    | eapply pres_processHeader | eapply pres_processGenerateQueue | eapply pres_replayHeaders
    | eapply pres_tsTemplate_new | eapply pres_headersEnd | eapply pres_ts_fileStart
    | eapply pres_ts_fileEnd | eapply pres_ts_classStart | eapply pres_ts_method
    | eapply pres_ts_call | eapply pres_processClass | eapply pres_run
    | match goal with
      | |- pres _ (ret _) => eapply pres_ret
      | |- pres _ (throw _) => eapply pres_throw
      | |- pres _ (gets _) => eapply pres_gets
      | |- pres _ (modify _) => eapply pres_modify
      | |- pres _ (write_header _) => unfold write_header
      | |- pres _ (write_stub _) => unfold write_stub
      | |- pres _ (buildClass _ _ _) => unfold buildClass
      | |- pres _ (bind _ _) => eapply pres_bind
      | |- pres _ (catch _ _) => eapply pres_catch
      | |- pres _ (mapM _ _) => eapply pres_mapM
      | |- pres _ (forEach _ _) => eapply pres_forEach
      | |- pres _ (if ?b then _ else _) => destruct b
      | |- pres _ (match ?x with _ => _ end) => destruct x
      | |- forall _, _ => intro
      end
    | progress cbv beta zeta ]).

Lemma cache_ok_insert load d c s :
  expected_class load d = Some c -> cache_ok load s -> cache_ok load (upd_cache (insert d c) s).
Proof.
  intros Hd Hc d' c' H. simpl in H. apply lookup_insert_Some in H as [[<- <-]|[_ H]]; auto.
Qed.

Lemma tframe_cache load : tframe (cache_step load) load.
Proof.
  unfold cache_step. split; [split|..]; intros; try tauto.
  by apply cache_ok_insert.
Qed.

Lemma frame_stub_same load : frame stub_same load.
Proof.
  unfold stub_same. split; intros; simpl; intuition congruence.
Qed.

Lemma tframe_hs_mono load : tframe hs_mono load.
Proof. unfold hs_mono. split; [split|..]; intros; simpl; set_solver. Qed.

Lemma cache_ok_pres load depth e p force classes fuel :
  pres (cache_step load) (run load depth e p force classes fuel).
Proof. gpres ltac:(tframe_from (tframe_cache load)). Qed.

Lemma findClass_value load n d s c s' :
  cache_ok load s -> findClass load n d s = (Ok c, s') -> expected_class load d = Some c.
Proof.
  destruct n as [|n]; [discriminate|]. intros Hc H.
  apply bind_ok in H as (u & s1 & H1 & H). unfold modify in H1. injection H1 as _ <-.
  cbv beta in H. destruct (st_cache (log_call d s) !! d) as [c'|] eqn:E.
  - injection H as <- _. exact (Hc d c' E).
  - unfold catch in H. destruct (bind _ _ (log_call d s)) as [[v|e] s2] eqn:Eb; [|discriminate].
    injection H as <- _. apply bind_ok in Eb as (rv & s3 & Hb & Hk).
    apply bind_ok in Hk as (? & ? & _ & Hk). apply ret_ok in Hk as [<- _].
    exact (build_value load (findClass load n) d _ _ _ Hb).
Qed.

(* ------------------------------------------------------------------ *)
(** ** The stub stream does not depend on the header side *)

Lemma cache_step_trans load s1 s2 s3 :
  cache_step load s1 s2 -> cache_step load s2 s3 -> cache_step load s1 s3.
Proof. unfold cache_step. tauto. Qed.

Lemma stub_rel_ret {A} load (a : A) : stub_rel load (ret a) (ret a).
Proof.
  intros s1 s2 a1 a2 s1' s2' _ _ S H1 H2.
  apply ret_ok in H1 as [<- <-]. apply ret_ok in H2 as [<- <-]. done.
Qed.

Lemma stub_rel_throw {A} load e : stub_rel load (@throw A e) (@throw A e).
Proof. intros s1 s2 a1 a2 s1' s2' _ _ _ H1. discriminate. Qed.

Lemma stub_rel_bind {A B} load (m1 m2 : M A) (k1 k2 : A -> M B) :
  stub_rel load m1 m2 -> pres (cache_step load) m1 -> pres (cache_step load) m2 ->
  (forall a, stub_rel load (k1 a) (k2 a)) -> stub_rel load (bind m1 k1) (bind m2 k2).
Proof.
  intros Hm P1 P2 Hk s1 s2 a1 a2 s1' s2' C1 C2 S H1 H2.
  apply bind_ok in H1 as (b1 & t1 & E1 & K1). apply bind_ok in H2 as (b2 & t2 & E2 & K2).
  destruct (Hm _ _ _ _ _ _ C1 C2 S E1 E2) as [<- S'].
  specialize (P1 s1). specialize (P2 s2). rewrite E1 in P1. rewrite E2 in P2.
  unfold cache_step in P1, P2. simpl in P1, P2.
  exact (Hk b1 t1 t2 a1 a2 s1' s2' (P1 C1) (P2 C2) S' K1 K2).
Qed.

Lemma stub_rel_det {A} load (m1 m2 : M A) :
  pres stub_same m1 -> pres stub_same m2 ->
  (forall s1 s2 a1 a2 s1' s2', cache_ok load s1 -> cache_ok load s2 ->
     m1 s1 = (Ok a1, s1') -> m2 s2 = (Ok a2, s2') -> a1 = a2) ->
  stub_rel load m1 m2.
Proof.
  intros P1 P2 Hv s1 s2 a1 a2 s1' s2' C1 C2 S H1 H2. split; [eauto|].
  specialize (P1 s1). specialize (P2 s2). rewrite H1 in P1. rewrite H2 in P2.
  unfold stub_same in *. simpl in *. intuition congruence.
Qed.

Lemma stub_rel_modify load f :
  (forall s1 s2, stub_same s1 s2 -> stub_same (f s1) (f s2)) -> stub_rel load (modify f) (modify f).
Proof.
  intros Hf s1 s2 a1 a2 s1' s2' _ _ S H1 H2. unfold modify in *.
  injection H1 as <- <-. injection H2 as <- <-. auto.
Qed.

Lemma stub_rel_gets load : stub_rel load (gets st_classesSeen) (gets st_classesSeen).
Proof.
  intros s1 s2 a1 a2 s1' s2' _ _ S H1 H2. unfold gets in *.
  injection H1 as <- <-. injection H2 as <- <-. split; [|done]. destruct S as [_ ->]. done.
Qed.

Lemma stub_rel_forEach {A} load (f : A -> M unit) xs :
  (forall x, stub_rel load (f x) (f x)) -> (forall x, pres (cache_step load) (f x)) ->
  stub_rel load (forEach f xs) (forEach f xs).
Proof.
  intros Hf Pf. induction xs as [|x xs IH]; simpl; [apply stub_rel_ret|].
  apply stub_rel_bind; auto.
Qed.

Lemma stub_rel_mapM {A B} load (f : A -> M B) xs :
  (forall x, stub_rel load (f x) (f x)) -> (forall x, pres (cache_step load) (f x)) ->
  stub_rel load (mapM f xs) (mapM f xs).
Proof.
  intros Hf Pf.
  assert (Pm : forall ys, pres (cache_step load) (mapM f ys))
    by (intros; eapply pres_mapM; [unfold cache_step; tauto ..|done]).
  induction xs as [|x xs IH]; simpl; [apply stub_rel_ret|].
  apply stub_rel_bind; auto. intros y. apply stub_rel_bind; auto. intros ys. apply stub_rel_ret.
Qed.

Lemma cache_ok_init load : cache_ok load st_init.
Proof. intros d c H. simpl in H. by rewrite lookup_empty in H. Qed.

Ltac hdr_det load :=
  apply stub_rel_det; [gpres ltac:(frame_from (frame_stub_same load))..|].

Lemma stub_rel_findClass load n d : stub_rel load (findClass load n d) (findClass load n d).
Proof.
  hdr_det load. intros s1 s2 a1 a2 s1' s2' C1 C2 H1 H2.
  apply findClass_value in H1; [|done]. apply findClass_value in H2; [|done]. congruence.
Qed.

Lemma stub_rel_gen load depth d :
  stub_rel load (generateClassDefinition load depth d) (generateClassDefinition load depth d).
Proof. hdr_det load. by intros ? ? [] []. Qed.

Lemma stub_rel_jvm load depth prefix d :
  stub_rel load (jvmtype2tstype load depth prefix d) (jvmtype2tstype load depth prefix d).
Proof.
  hdr_det load. intros s1 s2 a1 a2 s1' s2' _ _ H1 H2.
  apply jvmtype2tstype_value in H1, H2. congruence.
Qed.

Lemma stub_rel_tpl load depth e1 e2 p force :
  stub_rel load (tsTemplate_new load depth e1 p force) (tsTemplate_new load depth e2 p force).
Proof. hdr_det load. by intros ? ? [] []. Qed.

Lemma stub_rel_headersEnd load depth fuel :
  stub_rel load (headersEnd load depth fuel) (headersEnd load depth fuel).
Proof. hdr_det load. by intros ? ? [] []. Qed.

Ltac srel load :=
  repeat (first
    [ apply stub_rel_findClass | apply stub_rel_gen | apply stub_rel_jvm
    | apply stub_rel_tpl | apply stub_rel_headersEnd
    | match goal with
      | |- stub_rel _ (ret _) _ => apply stub_rel_ret
      | |- stub_rel _ (throw _) _ => apply stub_rel_throw
      | |- stub_rel _ (gets _) _ => apply stub_rel_gets
      | |- stub_rel _ (write_stub _) _ => unfold write_stub
      | |- stub_rel _ (modify _) _ =>
          apply stub_rel_modify; unfold stub_same; simpl; intros ? ? [? ?]; split; congruence
      | |- stub_rel _ (bind _ _) _ =>
          apply stub_rel_bind; [| gpres ltac:(tframe_from (tframe_cache load)) ..|intros ?]
      | |- stub_rel _ (forEach _ _) _ =>
          apply stub_rel_forEach; [intros ?| gpres ltac:(tframe_from (tframe_cache load))]
      | |- stub_rel _ (mapM _ _) _ =>
          apply stub_rel_mapM; [intros ?| gpres ltac:(tframe_from (tframe_cache load))]
      end
    | match goal with
      | |- stub_rel _ (if ?b then _ else _) _ => destruct b
      | |- stub_rel _ (match ?x with _ => _ end) _ => destruct x
      end
    | progress cbv beta zeta ]).

Lemma stub_rel_ts_call load depth c :
  stub_rel load (ts_call load depth c) (ts_call load depth c).
Proof.
  destruct c; simpl;
    [unfold ts_classStart | unfold ts_method | unfold ts_classEnd, write_stub]; srel load.
Qed.

Lemma stub_rel_processClass load depth d :
  stub_rel load (processClass load depth d) (processClass load depth d).
Proof.
  unfold processClass. srel load. apply stub_rel_ts_call.
Qed.

Lemma stub_rel_run load depth e1 e2 p force classes fuel :
  stub_rel load (run load depth e1 p force classes fuel) (run load depth e2 p force classes fuel).
Proof.
  unfold run, ts_fileStart, ts_fileEnd. srel load. apply stub_rel_processClass.
Qed.

(** C6 (amended). Two completed runs over the same classes, with the same
    classpath and options, write byte-identical stub files, whatever
    previous header file each of them replays. The header file is not
    covered: see [C6_idempotent_cex]. *)
Theorem C6_stub_idempotent load depth h1 h2 p force classes fuel s1 s2 :
  run load depth h1 p force classes fuel st_init = (Ok tt, s1) ->
  run load depth h2 p force classes fuel st_init = (Ok tt, s2) ->
  st_stub s1 = st_stub s2.
Proof.
  intros H1 H2.
  destruct (stub_rel_run load depth h1 h2 p force classes fuel st_init st_init tt tt s1 s2
              (cache_ok_init load) (cache_ok_init load) (conj eq_refl eq_refl) H1 H2)
    as [_ [E _]].
  done.
Qed.

Lemma C6_stub_idempotent_witness :
  st_stub (snd (sample_run None))
  = st_stub (snd (sample_run (Some (st_header (snd (sample_run None)))))).
Proof.
  apply (C6_stub_idempotent sample_load 50 None (Some (st_header (snd (sample_run None))))
           "doppiojvm" [] ["LFoo;"] 100);
    vm_compute; reflexivity.
Defined.

(** The second run over [Foo], which replays the header of the first,
    emits the declarations in the opposite order, so the two header files
    differ. *)
Lemma C6_idempotent_cex :
  fst (sample_run None) = Ok tt /\
  fst (sample_run (Some (st_header (snd (sample_run None))))) = Ok tt /\
  st_emitted (snd (sample_run None))
    = ["LFoo;"; "Ljava/lang/Object;"; "Ljava/lang/Throwable;"] /\
  st_emitted (snd (sample_run (Some (st_header (snd (sample_run None))))))
    = ["Ljava/lang/Throwable;"; "Ljava/lang/Object;"; "LFoo;"] /\
  st_header (snd (sample_run (Some (st_header (snd (sample_run None))))))
    <> st_header (snd (sample_run None)).
Proof.
  split_and!; try (vm_compute; reflexivity).
  apply String.eqb_neq. vm_compute. reflexivity.
Qed.

(* ------------------------------------------------------------------ *)
(** ** When findClass fills the cache *)

Lemma tframe_trace load : tframe trace_ext load.
Proof.
  unfold trace_ext, trace_from.
  split; [split|..];
    first [ intros s1 s2 s3 [l1 H1] [l2 H2]; exists (l1 ++ l2)%list; by rewrite H2, H1, app_assoc
          | intros; simpl; exists []; by rewrite app_nil_r
          | intros; simpl; eexists; reflexivity ].
Qed.

Lemma bind_modify {A} f (k : unit -> M A) s : bind (modify f) k s = k tt (f s).
Proof. reflexivity. Qed.

Lemma findClass_S load m x :
  findClass load (S m) x =
  (modify (log_call x) ;;
   fun s =>
   match st_cache s !! x with
   | Some c => (Ok c, s)
   | None =>
     catch
       (let* rv := buildClass load (findClass load m) x in
        modify (upd_cache (insert x rv)) ;;
        ret rv)
       (fun e => throw (EReadClass x e)) s
   end).
Proof. reflexivity. Qed.

Lemma trace_from_bind {A B} t (m : M A) (k : A -> M B) s :
  trace_from t (snd (m s)) -> (forall a, pres trace_ext (k a)) -> trace_from t (snd (bind m k s)).
Proof.
  intros [l H] Hk. unfold bind. destruct (m s) as [[a|e] s'] eqn:E; simpl in *; [|by exists l].
  destruct (Hk a s') as [l' H']. exists (l ++ l')%list. by rewrite H', H, app_assoc.
Qed.

Lemma trace_from_catch {A} t (m : M A) (h : Exn -> M A) s :
  trace_from t (snd (m s)) -> (forall e, pres trace_ext (h e)) -> trace_from t (snd (catch m h s)).
Proof.
  intros [l H] Hh. unfold catch. destruct (m s) as [[a|e] s'] eqn:E; simpl in *; [by exists l|].
  destruct (Hh e s') as [l' H']. exists (l ++ l')%list. by rewrite H', H, app_assoc.
Qed.

Ltac trace_frame load :=
  gpres ltac:(first [ tframe_from (tframe_trace load)
                    | intros; unfold trace_ext, trace_from; simpl; exists []; by rewrite app_nil_r ]).

Lemma findClass_trace_head load m x s :
  trace_from (st_trace s ++ [(x, st_cache s)]) (snd (findClass load (S m) x s)).
Proof.
  rewrite findClass_S, bind_modify. cbv beta.
  destruct (st_cache (log_call x s) !! x).
  - exists []. simpl. by rewrite app_nil_r.
  - match goal with
    | |- trace_from _ (snd (catch ?M ?H ?s1)) => assert (P : pres trace_ext (catch M H))
    end.
    { trace_frame load. }
    exact (P (log_call x s)).
Qed.

(** C1 (amended). When [findClass] is entered with [n + 2] frames for a
    reference descriptor [d] that is not cached, whose class file names a
    superclass [sd], the resolution of [sd] starts with the cache as it was
    on entry, which has no entry for [d]: the call trace begins with the
    call for [d] and then the call for [sd], both seeing that cache. When
    the call returns normally, [d] is cached with the class it returned. *)
Theorem C1_cache_after_supers load n d s r sd :
  st_cache s !! d = None -> is_char (first_char d) "L" = true ->
  load (descriptor2typestr d) = Some r -> rc_super r = Some sd ->
  (exists rest, st_trace (snd (findClass load (S (S n)) d s))
                = (st_trace s ++ [(d, st_cache s); (sd, st_cache s)] ++ rest)%list) /\
  (forall c s', findClass load (S (S n)) d s = (Ok c, s') -> st_cache s' !! d = Some c).
Proof.
  intros Hc HL Hl Hs. split.
  - cut (trace_from (st_trace s ++ [(d, st_cache s); (sd, st_cache s)])%list
                    (snd (findClass load (S (S n)) d s)));
      [intros [l E]; exists l; by rewrite E, app_assoc|].
    rewrite findClass_S, bind_modify. cbv beta.
    change (st_cache (log_call d s)) with (st_cache s). rewrite Hc.
    apply trace_from_catch; [|intros; trace_frame load].
    apply trace_from_bind; [|intros; trace_frame load].
    unfold buildClass. rewrite HL, Hl.
    apply trace_from_bind; [|intros; trace_frame load].
    rewrite Hs. apply trace_from_bind; [|intros; trace_frame load].
    pose proof (findClass_trace_head load n sd (log_call d s)) as T.
    cbn [st_trace st_cache log_call] in T. rewrite <- app_assoc in T. exact T.
  - intros c s' H. rewrite findClass_S, bind_modify in H. cbv beta in H.
    change (st_cache (log_call d s)) with (st_cache s) in H. rewrite Hc in H.
    unfold catch in H.
    destruct (bind _ _ (log_call d s)) as [[v|e] s2] eqn:E; [|discriminate].
    injection H as <- <-. apply bind_ok in E as (rv & s3 & _ & E).
    rewrite bind_modify in E. apply ret_ok in E as [<- <-].
    simpl. apply lookup_insert_Some. by left.
Qed.

Lemma C1_cache_after_supers_witness :
  exists rest, st_trace (snd (findClass sample_load 50 "LFoo;" st_init))
               = ([("LFoo;", ∅); ("Ljava/lang/Object;", ∅)] ++ rest)%list.
Proof.
  apply (proj1 (C1_cache_after_supers sample_load 48 "LFoo;" st_init
                  (plain_class "LFoo;" (Some "Ljava/lang/Object;") [m_bar]) "Ljava/lang/Object;"
                  eq_refl eq_refl eq_refl eq_refl)).
Defined.

(** [Foo] is not in the cache when the resolution of its superclass
    [java/lang/Object] starts; a class that names itself as superclass
    re-enters [findClass] for the same descriptor until the stack runs
    out, with nothing ever cached. *)
Lemma C1_cache_before_supers_cex :
  st_trace (snd (findClass sample_load 50 "LFoo;" st_init))
    = [("LFoo;", ∅); ("Ljava/lang/Object;", ∅)] /\
  map fst (st_trace (snd (findClass cyclic_load 10 "LCyc;" st_init))) = repeat "LCyc;" 10 /\
  st_cache (snd (findClass cyclic_load 10 "LCyc;" st_init)) = ∅ /\
  (exists e, fst (findClass cyclic_load 10 "LCyc;" st_init) = Err e).
Proof. split_and!; [vm_compute; reflexivity .. | eexists; vm_compute; reflexivity]. Qed.

(* ------------------------------------------------------------------ *)
(** ** Which classes get a stub block *)

Lemma pcd_methods_spec cd f ms nf :
  pcd_methods cd f ms nf =
  (((if nf then [] else match List.filter m_isNative ms with
                        | [] => []
                        | _ => [CallClassStart f]
                        end)
    ++ map (fun m => CallMethod cd (m_signature m) (m_isStatic m) (m_parameterTypes m)
                                (m_returnType m))
           (List.filter m_isNative ms))%list,
   nf || match List.filter m_isNative ms with [] => false | _ => true end).
Proof.
  revert nf. induction ms as [|m ms IH]; intros nf; simpl.
  - destruct nf; reflexivity.
  - destruct (m_isNative m) eqn:Em; [|apply IH].
    rewrite IH. simpl. by rewrite orb_true_r.
Qed.

(** C8. The template calls [processClassData] makes for a class: none at
    all when the class has no native method; otherwise one [classStart],
    then one [method] call per native method, in declaration order, then
    one [classEnd]. *)
Theorem C8_stub_blocks r :
  processClassData r =
  match List.filter m_isNative (rc_methods r) with
  | [] => []
  | natives =>
      let n := replace_char "/" "_" (rc_name r) in
      let fixedClassName := substring 1 (String.length n - 2) n in
      (CallClassStart fixedClassName
         :: map (fun m => CallMethod (rc_name r) (m_signature m) (m_isStatic m)
                                     (m_parameterTypes m) (m_returnType m)) natives
         ++ [CallClassEnd fixedClassName])%list
  end.
Proof.
  unfold processClassData. rewrite pcd_methods_spec. simpl.
  destruct (List.filter m_isNative (rc_methods r)); reflexivity.
Qed.

(* ------------------------------------------------------------------ *)
(** ** Replaying the previous header *)

(** C9 (amended). Replaying the previous header file never makes the
    constructor throw, whatever the file holds or whether it exists, and
    the membership set only grows. What the replay enqueued before a
    failing entry stays enqueued and is processed later, where it can make
    the run abort: see [C9_replay_cex]. *)
Theorem C9_replay_never_throws load depth existing s :
  fst (replayHeaders load depth existing s) = Ok tt /\
  st_headerSet s ⊆ st_headerSet (snd (replayHeaders load depth existing s)).
Proof.
  split.
  - unfold replayHeaders, catch.
    match goal with
    | |- fst (match ?x with _ => _ end) = _ => destruct x as [[[]|e] s']
    end; reflexivity.
  - revert s. gpres ltac:(tframe_from (tframe_hs_mono load)).
Qed.

(** A previous header whose second entry, [number], cannot be decoded:
    the replay returns normally but leaves [Foo] on the worklist, whereas
    without a previous header the state is unchanged. The leftover entries
    are processed by [headersEnd]: with a previous header declaring [X],
    whose field type [Y] cannot be loaded, the run aborts, while the same
    run without a previous header succeeds. *)
Lemma C9_replay_cex :
  fst (replayHeaders sample_load 50
         (Some ("  export class Foo {" ++ nl ++ "  export class number {" ++ nl)) st_init) = Ok tt /\
  st_pushed (snd (replayHeaders sample_load 50
         (Some ("  export class Foo {" ++ nl ++ "  export class number {" ++ nl)) st_init))
    = ["LFoo;"] /\
  map fst (st_queue (snd (replayHeaders sample_load 50
         (Some ("  export class Foo {" ++ nl ++ "  export class number {" ++ nl)) st_init)))
    = ["LFoo;"] /\
  replayHeaders sample_load 50 None st_init = (Ok tt, st_init) /\
  fst (replayHeaders broken_field_load 50
         (Some ("  export class X {" ++ nl ++ "  export class number {" ++ nl)) st_init) = Ok tt /\
  fst (run broken_field_load 50
         (Some ("  export class X {" ++ nl ++ "  export class number {" ++ nl))
         "doppiojvm" [] ["LFoo;"] 100 st_init) = Err (EReadClass "LY;" (ENotFound "Y")) /\
  fst (run broken_field_load 50 None "doppiojvm" [] ["LFoo;"] 100 st_init) = Ok tt.
Proof. split_and!; vm_compute; reflexivity. Qed.

(* ------------------------------------------------------------------ *)
(** ** The output directory *)

(** C10 (amended). An existing output directory is left unchanged; a
    missing one is created, one level, when its parent directory exists.
    When the parent is missing too, [mkdirSync] throws: see
    [C10_output_dir_cex]. *)
Theorem C10_output_dir fs p :
  (existsSync fs p = true -> ensureOutputDirectory fs p = Ok fs) /\
  (existsSync fs p = false -> existsSync fs (removelast p) = true ->
   ensureOutputDirectory fs p = Ok (p :: fs)).
Proof.
  unfold ensureOutputDirectory, mkdirSync. split.
  - intros E. by rewrite E.
  - intros E1 E2. by rewrite E1, E2.
Qed.

Lemma C10_output_dir_witness :
  ensureOutputDirectory [["out"]] ["out"] = Ok [["out"]] /\
  ensureOutputDirectory [] ["out"] = Ok [["out"]].
Proof.
  split.
  - apply (proj1 (C10_output_dir [["out"]] ["out"])). vm_compute. reflexivity.
  - apply (proj2 (C10_output_dir [] ["out"])); vm_compute; reflexivity.
Defined.

(** Output directory [out/sub] when not even [out] exists: the run stops
    with the error of [mkdirSync]. *)
Lemma C10_output_dir_cex :
  existsSync [] ["out"; "sub"] = false /\
  ensureOutputDirectory [] ["out"; "sub"] = Err (EFs ["out"; "sub"]).
Proof. split; vm_compute; reflexivity. Qed.

(* ------------------------------------------------------------------ *)
(** ** The base clause of an interface *)

Lemma header_same_jvm load depth prefix d :
  pres (fun s s' => st_header s' = st_header s) (jvmtype2tstype load depth prefix d).
Proof.
  eapply pres_jvmtype2tstype; try (intros; simpl; congruence).
  intros dp d' s _ _ _. revert s.
  change (pres (fun s s' : St => st_header s' = st_header s) (enqueue load dp d')).
  eapply pres_enqueue_of; intros; simpl; congruence.
Qed.

Lemma mapM_jvm load depth xs s ts s' :
  mapM (jvmtype2tstype load depth false) xs s = (Ok ts, s') ->
  ts = map (ts_name false) xs /\ st_header s' = st_header s.
Proof.
  revert s ts. induction xs as [|x xs IH]; intros s ts H; simpl in H.
  - apply ret_ok in H as [<- <-]. done.
  - apply bind_ok in H as (t & s1 & H1 & H). apply bind_ok in H as (ts' & s2 & H2 & H).
    apply ret_ok in H as [<- <-]. destruct (IH _ _ H2) as [-> E2].
    pose proof (jvmtype2tstype_value _ _ _ _ _ _ _ H1) as ->.
    pose proof (header_same_jvm load depth false x s) as E1. rewrite H1 in E1. simpl in E1.
    split; [done|congruence].
Qed.

(** C4 (amended). For an interface, the base clause written after its
    name is [extends] followed by its superclass entry, which is
    [java/lang/Object] in every interface's class file, and then by its
    extended interfaces, separated by commas. *)
Theorem C4_interface_bases load depth r sc s s' :
  rc_isInterface r = true -> rc_super r = Some sc ->
  processHeaderBases load depth r s = (Ok tt, s') ->
  st_header s' = st_header s ++ " extends " ++ join ", " (map (ts_name false) (sc :: rc_interfaces r)).
Proof.
  intros Hi Hs H. unfold processHeaderBases in H. rewrite Hs in H.
  apply bind_ok in H as (u & s1 & H1 & H).
  apply bind_ok in H1 as (t & s0 & H0 & H1).
  pose proof (jvmtype2tstype_value _ _ _ _ _ _ _ H0) as ->.
  pose proof (header_same_jvm load depth false sc s) as E0. rewrite H0 in E0. simpl in E0.
  unfold write_header, modify in H1. injection H1 as _ <-.
  destruct (rc_interfaces r) as [|i is] eqn:Ei.
  - apply ret_ok in H as [_ <-]. simpl. by rewrite E0.
  - rewrite Hi in H.
    apply bind_ok in H as (u2 & s2 & H2 & H). unfold write_header, modify in H2.
    injection H2 as _ <-.
    apply bind_ok in H as (ts & s3 & H3 & H). apply mapM_jvm in H3 as [-> E3].
    unfold write_header, modify in H. injection H as <-.
    simpl in E3 |- *. rewrite E3, E0. rewrite <- !str_app_assoc. reflexivity.
Qed.

Lemma C4_interface_bases_witness :
  st_header (snd (processHeaderBases sample_load 50 java_util_List st_init))
  = "" ++ " extends " ++ join ", " ["java_lang_Object"; "java_util_Collection"].
Proof.
  apply (C4_interface_bases sample_load 50 java_util_List "Ljava/lang/Object;" st_init);
    [reflexivity | reflexivity | vm_compute; reflexivity].
Defined.

(** The declaration written for [java/util/List] names [java_lang_Object]
    as a base of the interface. *)
Lemma C4_interface_bases_cex :
  fst (processHeader sample_load 50 (RefCD java_util_List) st_init) = Ok tt /\
  st_header (snd (processHeader sample_load 50 (RefCD java_util_List) st_init))
  = "  export interface java_util_List extends java_lang_Object, java_util_Collection {"
    ++ nl ++ "  }" ++ nl.
Proof. split; vm_compute; reflexivity. Qed.

(* ------------------------------------------------------------------ *)
(** ** Which requested classes the header generation is seeded with *)

Lemma pres_at R {A} (m : M A) s v s1 : pres R m -> m s = (v, s1) -> R s s1.
Proof. intros P E. specialize (P s). rewrite E in P. exact P. Qed.

Lemma tframe_and R1 R2 load :
  tframe R1 load -> tframe R2 load -> tframe (fun s s' => R1 s s' /\ R2 s s') load.
Proof.
  intros [[] ? ?] [[] ? ?]. split; [split|..]; intros; split; eauto; naive_solver.
Qed.

Lemma forEach_mem_split {A} (R : St -> St -> Prop) (f : A -> M unit) xs x s s' :
  (forall s, R s s) -> (forall s1 s2 s3, R s1 s2 -> R s2 s3 -> R s1 s3) ->
  (forall y, pres R (f y)) ->
  forEach f xs s = (Ok tt, s') -> x ∈ xs ->
  exists sa sb, R s sa /\ f x sa = (Ok tt, sb) /\ R sb s'.
Proof.
  intros Hr Ht Hf. revert s. induction xs as [|y ys IH]; intros s H Hx.
  { by apply elem_of_nil in Hx. }
  simpl in H. apply bind_ok in H as ([] & s1 & H1 & H2).
  apply elem_of_cons in Hx as [->|Hx].
  - exists s, s1. split; [done|]. split; [done|].
    apply (pres_at R (forEach f ys) s1 (Ok tt) s'); [|exact H2].
    eapply pres_forEach; eauto.
  - destruct (IH s1 H2 Hx) as (sa & sb & Ra & Hfa & Rb). exists sa, sb.
    split; [|done]. eapply Ht; [|exact Ra]. exact (pres_at R (f y) s _ s1 (Hf y) H1).
Qed.

Lemma is_primitive_type_ref m : is_primitive_type ("L" ++ m ++ ";") = false.
Proof. by destruct m. Qed.

Lemma enqueue_mem load depth d s : d ∈ st_headerSet (snd (enqueue load depth d s)).
Proof.
  unfold enqueue. unfold bind at 1. unfold modify at 1.
  assert (P : pres hs_mono (let* c := findClass load depth d in modify (push_queue d c))).
  { gpres ltac:(tframe_from (tframe_hs_mono load)). }
  specialize (P (add_header_set d s)). unfold hs_mono in P. simpl in P |- *. set_solver.
Qed.

Lemma gcd_mem load depth m s :
  ("L" ++ m ++ ";") ∈ st_headerSet (snd (generateClassDefinition load depth ("L" ++ m ++ ";") s)).
Proof.
  assert (E : generateClassDefinition load depth ("L" ++ m ++ ";") s =
              if bool_decide (("L" ++ m ++ ";") ∈ st_headerSet s) then (Ok tt, s)
              else enqueue load depth ("L" ++ m ++ ";") s).
  { pose proof (is_primitive_type_ref m) as P. simpl in P |- *.
    rewrite P, orb_false_r. reflexivity. }
  rewrite E. destruct (bool_decide _) eqn:B; [by apply bool_decide_eq_true in B|].
  apply enqueue_mem.
Qed.

Lemma unescape_escape n :
  "_"%char ∉ list_ascii_of_string n -> replace_char "_" "/" (replace_char "/" "_" n) = n.
Proof.
  induction n as [|a n IH]; intros Hn; [done|].
  simpl in Hn. apply not_elem_of_cons in Hn as [Ha Hn].
  simpl. destruct (Ascii.eqb a "/") eqn:E.
  - apply Ascii.eqb_eq in E; subst. simpl. by rewrite IH.
  - simpl. destruct (Ascii.eqb a "_") eqn:E2; [by apply Ascii.eqb_eq in E2|]. by rewrite IH.
Qed.

Lemma filter_existsb {A} (f : A -> bool) l : existsb f l = true -> List.filter f l <> [].
Proof.
  induction l as [|x l IH]; simpl; [done|]. destruct (f x); simpl; [done|]. exact IH.
Qed.

Lemma pcd_native_start r n :
  rc_name r = "L" ++ n ++ ";" -> existsb m_isNative (rc_methods r) = true ->
  exists rest, processClassData r = CallClassStart (replace_char "/" "_" n) :: rest.
Proof.
  intros Hn Hm. apply filter_existsb in Hm.
  unfold processClassData. rewrite pcd_methods_spec.
  destruct (List.filter m_isNative (rc_methods r)) as [|m ms]; [done|]. simpl.
  eexists. f_equal. f_equal. rewrite Hn, !replace_char_app.
  exact (descriptor2typestr_ref (replace_char "/" "_" n)).
Qed.

Lemma classStart_mem load depth n s s' :
  "_"%char ∉ list_ascii_of_string n ->
  ts_classStart load depth (replace_char "/" "_" n) s = (Ok tt, s') ->
  ("L" ++ n ++ ";") ∈ st_headerSet s'.
Proof.
  intros Hn H. unfold ts_classStart in H. rewrite unescape_escape in H by done.
  apply bind_ok in H as (u1 & s1 & _ & H). apply bind_ok in H as (u2 & s2 & _ & H).
  pose proof (gcd_mem load depth n s2) as G. rewrite H in G. exact G.
Qed.

(** C5 (amended). In a successful run, a requested class [L<n>;] that
    has at least one native method, whose class file names it, and whose
    internal name [n] has no underscore, is in the header's declared set
    at the end: [classStart] seeds the header generation with it. A
    requested class without native methods gets no [classStart] and is
    not seeded. *)
Theorem C5_native_classes_seeded load depth e p force classes fuel n r :
  fst (run load depth e p force classes fuel st_init) = Ok tt ->
  ("L" ++ n ++ ";") ∈ classes ->
  load n = Some r -> rc_name r = "L" ++ n ++ ";" ->
  "_"%char ∉ list_ascii_of_string n ->
  existsb m_isNative (rc_methods r) = true ->
  ("L" ++ n ++ ";") ∈ st_headerSet (snd (run load depth e p force classes fuel st_init)).
Proof.
  intros Hok Hin Hload Hname Hus Hnat.
  destruct (run load depth e p force classes fuel st_init) as [v s'] eqn:Erun.
  simpl in Hok |- *. subst v.
  set (R := fun s s' => cache_step load s s' /\ hs_mono s s').
  assert (T : tframe R load) by exact (tframe_and _ _ _ (tframe_cache load) (tframe_hs_mono load)).
  assert (Rr : forall s, R s s) by exact (fr_refl _ _ (tf_h _ _ T)).
  assert (Rt : forall s1 s2 s3, R s1 s2 -> R s2 s3 -> R s1 s3) by exact (fr_trans _ _ (tf_h _ _ T)).
  unfold run in Erun.
  apply bind_ok in Erun as (u1 & t1 & E1 & Erun).
  apply bind_ok in Erun as (u2 & t2 & E2 & Erun).
  apply bind_ok in Erun as ([] & t3 & E3 & Erun).
  apply bind_ok in Erun as (u4 & t4 & E4 & E5).
  assert (R12 : R st_init t2).
  { eapply Rt; [eapply pres_at; [|exact E1] | eapply pres_at; [|exact E2]];
      gpres ltac:(tframe_from T). }
  assert (R35 : R t3 s').
  { eapply Rt; [eapply pres_at; [|exact E4] | eapply pres_at; [|exact E5]];
      gpres ltac:(tframe_from T). }
  destruct (forEach_mem_split R (processClass load depth) classes _ t2 t3 Rr Rt
              ltac:(intros; gpres ltac:(tframe_from T)) E3 Hin) as (sa & sb & Ra & Hpc & Rb).
  assert (Ca : cache_ok load sa).
  { apply (proj1 Ra), (proj1 R12), cache_ok_init. }
  unfold processClass in Hpc. apply bind_ok in Hpc as (c & s1 & Hfc & Hpc).
  pose proof (findClass_value _ _ _ _ _ _ Ca Hfc) as Ec.
  unfold expected_class in Ec. rewrite descriptor2typestr_ref, Hload in Ec.
  simpl in Ec. injection Ec as <-.
  destruct (pcd_native_start r n Hname Hnat) as [rest Hpcd]. rewrite Hpcd in Hpc.
  simpl in Hpc. apply bind_ok in Hpc as ([] & s2 & Hcs & Hrest).
  pose proof (classStart_mem load depth n s1 s2 Hus Hcs) as M2.
  assert (Hm : hs_mono s2 sb).
  { apply (pres_at hs_mono (forEach (ts_call load depth) rest) s2 (Ok tt) sb); [|exact Hrest].
    gpres ltac:(tframe_from (tframe_hs_mono load)). }
  destruct Rb as [_ Hb]. destruct R35 as [_ H35]. unfold hs_mono in *. set_solver.
Qed.

Lemma C5_native_classes_seeded_witness :
  fst (sample_run None) = Ok tt /\ "LFoo;" ∈ st_headerSet (snd (sample_run None)).
Proof.
  assert (H : fst (sample_run None) = Ok tt) by (vm_compute; reflexivity).
  split; [exact H|].
  exact (C5_native_classes_seeded sample_load 50 None "doppiojvm" [] ["LFoo;"] 100 "Foo"
           (plain_class "LFoo;" (Some "Ljava/lang/Object;") [m_bar])
           H ltac:(set_solver) ltac:(reflexivity) ltac:(reflexivity)
           ltac:(vm_compute; set_solver) ltac:(reflexivity)).
Defined.

(** The requested class [Plain], which has no native method, is resolved
    in a successful run but never enters the header's declared set. *)
Lemma C5_plain_not_seeded_cex :
  fst (run sample_load 50 None "doppiojvm" [] ["LPlain;"] 100 st_init) = Ok tt /\
  bool_decide ("LPlain;" ∈ st_headerSet (snd (run sample_load 50 None "doppiojvm" [] ["LPlain;"] 100 st_init))) = false /\
  st_stub (snd (run sample_load 50 None "doppiojvm" [] ["LPlain;"] 100 st_init))
  = st_stub (snd (run sample_load 50 None "doppiojvm" [] [] 100 st_init)).
Proof. split_and!; vm_compute; reflexivity. Qed.

(* ================================================================== *)
(** * Further properties of the code *)

(** [file2desc] of a file name ending in [.class] is the reference descriptor of
    the name without the extension, and [descriptor2typestr] gives that name back. *)
Lemma file2desc_class n :
  file2desc (n ++ ".class") = "L" ++ n ++ ";" /\ descriptor2typestr (file2desc (n ++ ".class")) = n.
Proof.
  assert (E : file2desc (n ++ ".class") = "L" ++ n ++ ";").
  { unfold file2desc. rewrite length_app_str. change (String.length ".class") with 6.
    rewrite (proj2 (Nat.leb_le 6 (String.length n + 6)) ltac:(lia)).
    replace (String.length n + 6 - 6) with (String.length n) by lia.
    by rewrite substring_prefix. }
  split; [done|]. rewrite E. apply descriptor2typestr_ref.
Qed.

Lemma loadClass_cons i cp t :
  loadClass (i :: cp) t = match serves i t with Some b => Ok b | None => loadClass cp t end.
Proof. unfold serves. simpl. by destruct (hasClass i t). Qed.

(** [loadClass] returns the bytes of the first classpath item that may hold the
    class and loads it; the items before it are all skipped. *)
Theorem loadClass_first_serving cp t b :
  loadClass cp t = Ok b <->
  exists pre i post, cp = (pre ++ i :: post)%list /\ Forall (fun j => serves j t = None) pre /\
                     serves i t = Some b.
Proof.
  induction cp as [|i cp IH].
  - split; [discriminate|]. intros ([|??] & ? & ? & ? & _); discriminate.
  - rewrite loadClass_cons. destruct (serves i t) as [b'|] eqn:Ei.
    + split.
      * intros [= <-]. exists [], i, cp. done.
      * intros ([|j pre] & i' & post & Hcp & Hpre & Hi).
        -- injection Hcp as -> ->. congruence.
        -- injection Hcp as -> ->. inversion Hpre. congruence.
    + rewrite IH. split.
      * intros (pre & i' & post & -> & Hpre & Hi). exists (i :: pre), i', post. split_and!; [done| |done].
        constructor; done.
      * intros ([|j pre] & i' & post & Hcp & Hpre & Hi).
        -- injection Hcp as -> ->. congruence.
        -- injection Hcp as -> ->. inversion Hpre; subst. by exists pre, i', post.
Qed.

(** [loadClass] fails exactly when no classpath item serves the class, and
    then with "Unable to find class" for that class. *)
Theorem loadClass_not_found cp t e :
  loadClass cp t = Err e <-> e = ENotFound t /\ Forall (fun j => serves j t = None) cp.
Proof.
  induction cp as [|i cp IH].
  - simpl. split; [intros [= <-]; done | intros [-> _]; done].
  - rewrite loadClass_cons. destruct (serves i t) as [b|] eqn:Ei.
    + split; [discriminate|]. intros [_ H]. inversion H. congruence.
    + rewrite IH. split.
      * intros [-> H]. split; [done|]. by constructor.
      * intros [-> H]. inversion H. done.
Qed.

Lemma list_ascii_app x y :
  list_ascii_of_string (x ++ y) = (list_ascii_of_string x ++ list_ascii_of_string y)%list.
Proof. induction x as [|a x IH]; simpl; [done|]. by rewrite IH. Qed.

Lemma replace_char_absent c r x s :
  x ∉ list_ascii_of_string r -> x ∉ list_ascii_of_string s -> x ∉ list_ascii_of_string (replace_char c r s).
Proof.
  intros Hr. induction s as [|a s IH]; intros Hs; simpl; [set_solver|].
  simpl in Hs. apply not_elem_of_cons in Hs as [Ha Hs].
  destruct (Ascii.eqb a c); [rewrite list_ascii_app|]; set_solver.
Qed.

Lemma replace_char_gone c r s :
  c ∉ list_ascii_of_string r -> c ∉ list_ascii_of_string (replace_char c r s).
Proof.
  intros Hr. induction s as [|a s IH]; simpl; [set_solver|].
  destruct (Ascii.eqb a c) eqn:E; [rewrite list_ascii_app; set_solver|].
  apply Ascii.eqb_neq in E. set_solver.
Qed.

(** The output file name [targetName] has no slash and no dot, and
    [targetPath] has no dot. *)
Theorem targetName_flat className :
  ("/"%char ∉ list_ascii_of_string (targetName className)) /\
  ("."%char ∉ list_ascii_of_string (targetName className)) /\
  ("."%char ∉ list_ascii_of_string (targetPath className)).
Proof.
  unfold targetName, targetPath. split_and!.
  - apply replace_char_absent; [simpl; set_solver|]. apply replace_char_gone. simpl; set_solver.
  - apply replace_char_gone. simpl; set_solver.
  - apply replace_char_gone. simpl; set_solver.
Qed.

Lemma gc_stat_snd cp item b acc :
  snd (gc_stat cp item b acc) = (acc ++ List.filter (has_it item) cp)%list.
Proof.
  revert b acc. induction cp as [|i cp IH]; intros b acc; simpl.
  - by rewrite app_nil_r.
  - unfold has_it. destruct (stat_of i item); rewrite IH; [by rewrite <- app_assoc|done].
Qed.

Lemma gc_stat_none cp item b acc :
  Forall (fun j => stat_of j item = None) cp -> gc_stat cp item b acc = (b, acc).
Proof.
  intros H; revert acc; induction H as [|j cp Hj _ IH]; intros acc; simpl; [done|]. by rewrite Hj.
Qed.

Lemma gc_stat_last pre i post item b b' acc :
  stat_of i item = Some b' -> Forall (fun j => stat_of j item = None) post ->
  fst (gc_stat (pre ++ i :: post)%list item b acc) = b'.
Proof.
  intros Hi Hpost. revert b acc. induction pre as [|j pre IH]; intros b acc; simpl.
  - rewrite Hi, gc_stat_none by done. done.
  - destruct (stat_of j item); apply IH.
Qed.

Lemma gc_walk_not_resource pj pe fuel cpItems rv st x :
  gc_walk pj pe fuel cpItems rv st <> GcNoResource x.
Proof.
  revert rv st. induction fuel as [|f IH]; intros rv st; simpl; destruct st; try done.
  destruct (gc_items _ _ _ _ _ _); apply IH.
Qed.

Lemma filter_nil_forall {A} (f : A -> bool) l :
  List.filter f l = [] <-> Forall (fun x => f x = false) l.
Proof.
  induction l as [|x l IH]; simpl; [split; done|].
  destruct (f x) eqn:E; split; intros H; try done.
  - inversion H; congruence.
  - constructor; [done|]. by apply IH.
  - apply IH. by inversion H.
Qed.

(** [getClasses] throws "Unable to find resource" exactly when no classpath
    item has the item, as given or with [.class] appended. *)
Theorem getClasses_no_resource path_join path_extname cp item fuel :
  getClasses path_join path_extname cp item fuel = GcNoResource item <->
  Forall (fun i => stat_of i item = None) cp.
Proof.
  unfold getClasses.
  pose proof (gc_stat_snd cp item false []) as Hs.
  destruct (gc_stat cp item false []) as [isDir cpItems]. simpl in Hs. subst cpItems.
  assert (Hf : Forall (fun i => stat_of i item = None) cp <->
               List.filter (has_it item) cp = []).
  { rewrite filter_nil_forall. apply Forall_iff. intros j. unfold has_it.
    destruct (stat_of j item); split; done. }
  rewrite Hf. destruct (List.filter (has_it item) cp) eqn:E; [done|].
  split; [|done]. intros H. exfalso. destruct isDir; [by eapply gc_walk_not_resource|discriminate].
Qed.

(** When the last classpath item that has [item] has it as a file,
    [getClasses] returns the single descriptor of that file. *)
Theorem getClasses_single path_join path_extname pre i post item fuel :
  stat_of i item = Some false -> Forall (fun j => stat_of j item = None) post ->
  getClasses path_join path_extname (pre ++ i :: post)%list item fuel =
  GcOk [if String.eqb (path_extname item) ".class" then file2desc item else "L" ++ item ++ ";"].
Proof.
  intros Hi Hpost. unfold getClasses.
  pose proof (gc_stat_snd (pre ++ i :: post)%list item false []) as Hs.
  pose proof (gc_stat_last pre i post item false false [] Hi Hpost) as Hl.
  destruct (gc_stat _ item false []) as [isDir cpItems]. simpl in Hs, Hl. subst.
  rewrite List.filter_app. simpl. unfold has_it at 2. rewrite Hi.
  by destruct (List.filter (has_it item) pre).
Qed.

Lemma gc_listing_ok pj pe dir l rv st :
  from_class_files pe rv -> from_class_files pe (gc_listing pj pe dir l rv st).1.
Proof.
  revert rv st. induction l as [|e l IH]; intros rv st H; simpl; [done|].
  destruct (String.eqb _ _) eqn:E; apply IH; [|done].
  intros d [Hd| ->%list_elem_of_singleton]%elem_of_app; [by apply H|].
  apply String.eqb_eq in E. eauto.
Qed.

Lemma gc_items_ok pj pe dir items rv st :
  from_class_files pe rv -> from_class_files pe (gc_items pj pe dir items rv st).1.
Proof.
  revert rv st. induction items as [|j items IH]; intros rv st H; simpl; [done|].
  destruct (tryReaddirSync j dir); [|by apply IH].
  pose proof (gc_listing_ok pj pe dir l rv st H) as H'.
  destruct (gc_listing _ _ _ _ _ _). by apply IH.
Qed.

Lemma gc_walk_ok pj pe fuel items rv st rv' :
  from_class_files pe rv -> gc_walk pj pe fuel items rv st = GcOk rv' -> from_class_files pe rv'.
Proof.
  revert rv st. induction fuel as [|f IH]; intros rv st H E; simpl in E;
    (destruct st; [by injection E as <-|]); [done|].
  pose proof (gc_items_ok pj pe (List.last (s :: st) "") items rv (removelast (s :: st)) H) as H'.
  destruct (gc_items _ _ _ _ _ _). eapply IH; [exact H'|exact E].
Qed.

(** Every descriptor [getClasses] returns comes from a [.class] file or is
    the descriptor [L<item>;] of the requested item. *)
Theorem getClasses_descriptors path_join path_extname cp item fuel rv :
  getClasses path_join path_extname cp item fuel = GcOk rv ->
  forall d, d ∈ rv ->
    (exists p, path_extname p = ".class" /\ d = file2desc p) \/ d = "L" ++ item ++ ";".
Proof.
  unfold getClasses. destruct (gc_stat cp item false []) as [isDir cpItems].
  destruct cpItems as [|j js]; [discriminate|]. destruct isDir.
  - intros E d Hd. left. eapply gc_walk_ok; [|exact E|exact Hd]. intros ? ?%elem_of_nil. done.
  - intros [= <-] d ->%list_elem_of_singleton.
    destruct (String.eqb _ _) eqn:E; [left; apply String.eqb_eq in E; eauto|by right].
Qed.

Lemma gc_listing_flat pj pe dir l rv st :
  (forall e, e ∈ l -> pe (pj dir e) = ".class") ->
  gc_listing pj pe dir l rv st = ((rv ++ map (fun e => file2desc (pj dir e)) l)%list, st).
Proof.
  revert rv. induction l as [|e l IH]; intros rv H; simpl; [by rewrite app_nil_r|].
  rewrite (H e) by set_solver. simpl. rewrite IH by set_solver. by rewrite <- app_assoc.
Qed.

Lemma gc_items_flat pj pe dir items rv :
  (forall j l e, j ∈ items -> tryReaddirSync j dir = Some l -> e ∈ l -> pe (pj dir e) = ".class") ->
  gc_items pj pe dir items rv [] = ((rv ++ concat (map (dir_classes pj dir) items))%list, []).
Proof.
  revert rv. induction items as [|j items IH]; intros rv H; simpl; [by rewrite app_nil_r|].
  unfold dir_classes at 1. destruct (tryReaddirSync j dir) as [l|] eqn:E.
  - rewrite gc_listing_flat by (intros e He; eapply (H j); [set_solver|done|done]).
    rewrite IH by (intros j' l' e' Hj' Hl' He'; eapply (H j'); [set_solver|done|done]). by rewrite app_assoc.
  - rewrite IH by (intros j' l' e' Hj' Hl' He'; eapply (H j'); [set_solver|done|done]). done.
Qed.

Lemma gc_walk_start pj pe f items rv d :
  gc_walk pj pe (S f) items rv [d] =
  let '(rv', st') := gc_items pj pe d items rv [] in gc_walk pj pe f items rv' st'.
Proof. reflexivity. Qed.

(** For a directory whose listings hold only [.class] files, [getClasses]
    returns their descriptors, item by item in classpath order. *)
Theorem getClasses_flat_dir path_join path_extname pre i post item fuel :
  stat_of i item = Some true -> Forall (fun j => stat_of j item = None) post ->
  (forall j l e, j ∈ (pre ++ i :: post)%list -> tryReaddirSync j item = Some l -> e ∈ l ->
                 path_extname (path_join item e) = ".class") ->
  getClasses path_join path_extname (pre ++ i :: post)%list item (S fuel) =
  GcOk (concat (map (dir_classes path_join item) (List.filter (has_it item) (pre ++ i :: post)%list))).
Proof.
  intros Hi Hpost Hall. unfold getClasses.
  pose proof (gc_stat_snd (pre ++ i :: post)%list item false []) as Hs.
  pose proof (gc_stat_last pre i post item false true [] Hi Hpost) as Hl.
  destruct (gc_stat _ item false []) as [isDir cpItems]. simpl in Hs, Hl. subst.
  assert (Hne : List.filter (has_it item) (pre ++ i :: post)%list <> []).
  { rewrite List.filter_app. simpl. unfold has_it at 2. rewrite Hi. by destruct (List.filter _ pre). }
  destruct (List.filter (has_it item) (pre ++ i :: post)%list) as [|j js] eqn:Ef; [done|].
  cbv beta iota. rewrite <- Ef, gc_walk_start, gc_items_flat.
  - by destruct fuel.
  - intros j' l e Hj. apply Hall. rewrite Ef in Hj.
    assert (Hj' : j' ∈ List.filter (has_it item) (pre ++ i :: post)%list) by (rewrite Ef; done).
    apply list_elem_of_In, filter_In in Hj' as [Hj' _]. by apply list_elem_of_In.
Qed.

Lemma getClasses_single_witness :
  getClasses sample_join sample_extname [sample_dir_item] "Foo.class" 0 = GcOk ["LFoo;"].
Proof.
  etransitivity; [apply (getClasses_single _ _ [] sample_dir_item [] "Foo.class" 0)|].
  - reflexivity.
  - constructor.
  - vm_compute. reflexivity.
Defined.

Lemma getClasses_flat_dir_witness :
  getClasses sample_join sample_extname [sample_dir_item; sample_dir_item] "pkg" 1 =
  GcOk ["Lpkg/A;"; "Lpkg/A;"].
Proof.
  etransitivity; [apply (getClasses_flat_dir _ _ [sample_dir_item] sample_dir_item [] "pkg" 0)|].
  - reflexivity.
  - constructor.
  - intros j l e Hj Hl He. assert (j = sample_dir_item) as -> by set_solver. vm_compute in Hl. injection Hl as <-.
    apply list_elem_of_singleton in He as ->. reflexivity.
  - vm_compute. reflexivity.
Defined.

Lemma getClasses_descriptors_witness :
  "Lpkg/A;" ∈ ["Lpkg/A;"; "Lpkg/A;"] /\
  ((exists p, sample_extname p = ".class" /\ "Lpkg/A;" = file2desc p) \/ "Lpkg/A;" = "L" ++ "pkg" ++ ";").
Proof.
  split; [by left|].
  apply (getClasses_descriptors sample_join sample_extname [sample_dir_item; sample_dir_item] "pkg" 1 ["Lpkg/A;"; "Lpkg/A;"]).
  - vm_compute. reflexivity.
  - by left.
Defined.

Lemma hs_good_run load depth e p force classes fuel :
  pres (fun s s' => hs_good s -> hs_good s') (run load depth e p force classes fuel).
Proof.
  eapply pres_run; try (intros; unfold hs_good in *; simpl in *; by eauto).
  intros dp d s _ Hp Hf. revert s.
  change (pres (fun s s' : St => hs_good s -> hs_good s') (enqueue load dp d)).
  eapply pres_enqueue_of; try (intros; unfold hs_good in *; simpl in *; by eauto).
  intros s Hs x [->%elem_of_singleton|Hx]%elem_of_union; [done|by apply Hs].
Qed.

(** No primitive type and no array descriptor is ever entered in the
    header's declared set. *)
Theorem headerSet_never_arrays load depth e p force classes fuel x :
  x ∈ st_headerSet (snd (run load depth e p force classes fuel st_init)) ->
  is_primitive_type x = false /\ first_char x <> Some "["%char.
Proof.
  apply (hs_good_run load depth e p force classes fuel st_init).
  intros y Hy. by apply not_elem_of_empty in Hy.
Qed.

Lemma headerSet_never_arrays_witness :
  "LFoo;" ∈ st_headerSet (snd (run sample_load 50 None "doppiojvm" [] ["LFoo;"] 100 st_init)) /\
  is_primitive_type "LFoo;" = false /\ first_char "LFoo;" <> Some "["%char.
Proof.
  assert (H : "LFoo;" ∈ st_headerSet (snd (run sample_load 50 None "doppiojvm" [] ["LFoo;"] 100 st_init))).
  { apply (bool_decide_eq_true_1 _). vm_compute. reflexivity. }
  split; [exact H|]. exact (headerSet_never_arrays sample_load 50 None "doppiojvm" [] ["LFoo;"] 100 "LFoo;" H).
Defined.

Lemma ts_ref_roundtrip n :
  name_ok n = true -> String.prefix "JVMArray" n = false -> n <> "number" -> n <> "void" ->
  tstype2jvmtype (ts_name false ("L" ++ n ++ ";")) = Ok ("L" ++ n ++ ";").
Proof.
  intros Hok Hp Hnum Hvoid. rewrite ts_name_ref.
  unfold tstype2jvmtype. simpl.
  rewrite prefix_sanitize by reflexivity. rewrite Hp.
  destruct (String.eqb (sanitize n) "number") eqn:E1.
  { apply String.eqb_eq, sanitize_eq_literal in E1; [|done]. simpl in E1. congruence. }
  destruct (String.eqb (sanitize n) "void") eqn:E2.
  { apply String.eqb_eq, sanitize_eq_literal in E2; [|done]. simpl in E2. congruence. }
  by rewrite decode_sanitize.
Qed.

(** Converting an array of a well-formed reference type to its TypeScript name
    and back gives the descriptor back, at every array depth. *)
Theorem array_roundtrip k n :
  name_ok n = true -> String.prefix "JVMArray" n = false -> n <> "number" -> n <> "void" ->
  tstype2jvmtype (ts_name false (array_of k ("L" ++ n ++ ";"))) = Ok (array_of k ("L" ++ n ++ ";")).
Proof.
  intros Hok Hp Hnum Hvoid. induction k as [|k IH]; [by apply ts_ref_roundtrip|].
  change (ts_name false (array_of (S k) ("L" ++ n ++ ";")))
    with ("JVMArray<" ++ ts_name false (array_of k ("L" ++ n ++ ";")) ++ ">").
  rewrite tstype2jvmtype_array, IH. reflexivity.
Qed.

Lemma array_roundtrip_witness :
  tstype2jvmtype "JVMArray<JVMArray<java_lang_Foo__Bar>>" = Ok "[[Ljava/lang/Foo_Bar;".
Proof.
  exact (array_roundtrip 2 "java/lang/Foo_Bar" eq_refl eq_refl ltac:(discriminate) ltac:(discriminate)).
Defined.

Lemma existsb_filter_nil {A} (f : A -> bool) l : existsb f l = false -> List.filter f l = [].
Proof. induction l as [|x l IH]; simpl; [done|]. destruct (f x); simpl; [done|]. exact IH. Qed.

Lemma concat_empty_cons a l : String.concat "" (a :: l) = a ++ String.concat "" l.
Proof. destruct l; simpl; [by rewrite str_app_nil|done]. Qed.

Lemma join_cons sep x xs :
  join sep (x :: xs) = x ++ String.concat "" (map (fun y => sep ++ y) xs).
Proof.
  unfold join. revert x. induction xs as [|y xs IH]; intros x.
  - simpl. by rewrite str_app_nil.
  - change (String.concat sep (x :: y :: xs)) with (x ++ sep ++ String.concat sep (y :: xs)).
    rewrite IH. change (map (fun y => sep ++ y) (y :: xs)) with ((sep ++ y) :: map (fun y => sep ++ y) xs).
    rewrite concat_empty_cons. rewrite ?str_app_assoc. reflexivity.
Qed.

Lemma js_methods_rest cd ms fc out :
  fold_left (fun t c => js_call c t)
    (map (fun m => CallMethod cd (m_signature m) (m_isStatic m) (m_parameterTypes m) (m_returnType m)) ms)
    (mkJS false fc out) =
  mkJS false fc (out ++ String.concat "" (map (fun m => ("," ++ nl) ++ js_method_text m) ms)).
Proof.
  revert out. induction ms as [|m ms IH]; intros out.
  - simpl. by rewrite str_app_nil.
  - cbn [map fold_left js_call]. unfold js_method, js_write. cbn [js_firstMethod js_firstClass js_out].
    rewrite IH. f_equal. rewrite concat_empty_cons. unfold js_method_text. rewrite ?str_app_assoc. reflexivity.
Qed.

Lemma js_methods_first cd m ms fc out :
  fold_left (fun t c => js_call c t)
    (map (fun m => CallMethod cd (m_signature m) (m_isStatic m) (m_parameterTypes m) (m_returnType m)) (m :: ms))
    (mkJS true fc out) =
  mkJS false fc (out ++ js_method_text m ++ String.concat "" (map (fun m => ("," ++ nl) ++ js_method_text m) ms)).
Proof.
  cbn [map fold_left js_call]. unfold js_method, js_write. cbn [js_firstMethod js_firstClass js_out].
  rewrite js_methods_rest. f_equal. unfold js_method_text. rewrite ?str_app_assoc. reflexivity.
Qed.

Lemma js_fold_class r t :
  fold_left (fun t c => js_call c t) (processClassData r) t = js_class_step t r.
Proof.
  unfold processClassData, js_class_step, has_native. rewrite pcd_methods_spec.
  destruct (existsb m_isNative (rc_methods r)) eqn:E.
  - apply filter_existsb in E.
    destruct (List.filter m_isNative (rc_methods r)) as [|m ms] eqn:Ef; [done|].
    cbv beta iota zeta. rewrite fold_left_app.
    rewrite (fold_left_app _ [_]). cbn [fold_left js_call]. unfold js_classStart, js_write.
    cbn [js_firstClass js_firstMethod js_out].
    destruct (js_firstClass t); cbn [js_firstClass js_firstMethod js_out];
      rewrite js_methods_first; cbn [orb fold_left js_call]; unfold js_classEnd, js_write;
      cbn [js_firstClass js_firstMethod js_out]; f_equal;
      unfold js_block, fixedClassName; rewrite Ef; cbn [map]; rewrite join_cons;
      rewrite map_map; unfold js_method_text; rewrite ?str_app_assoc, ?str_app_nil; reflexivity.
  - rewrite existsb_filter_nil by done. simpl. reflexivity.
Qed.

Lemma js_class_step_native t r :
  has_native r = true ->
  js_class_step t r = mkJS false false (js_out t ++ (if js_firstClass t then "" else "," ++ nl) ++ js_block r).
Proof. unfold js_class_step. by intros ->. Qed.

Lemma js_class_step_plain t r : has_native r = false -> js_class_step t r = t.
Proof. unfold js_class_step. by intros ->. Qed.

Lemma findClass_cache load n d : pres (cache_step load) (findClass load n d).
Proof. gpres ltac:(tframe_from (tframe_cache load)). Qed.

Lemma js_loop_ok load depth classes t s t' s' :
  cache_ok load s -> js_loop load depth classes t s = (Ok t', s') ->
  exists rs, Forall2 (fun d r => expected_class load d = Some (RefCD r)) classes rs /\
             t' = fold_left js_class_step rs t.
Proof.
  revert t s. induction classes as [|d ds IH]; intros t s Hc H; simpl in H.
  - apply ret_ok in H as [<- _]. by exists [].
  - apply bind_ok in H as (t1 & s1 & H1 & H). unfold js_processClass in H1.
    apply bind_ok in H1 as (c & s0 & Hf & H1).
    pose proof (findClass_value _ _ _ _ _ _ Hc Hf) as Hv.
    pose proof (findClass_cache load depth d s Hc) as Hc0. rewrite Hf in Hc0. simpl in Hc0.
    destruct c as [r| |]; try discriminate.
    apply ret_ok in H1 as [<- <-]. apply IH in H as (rs & Hrs & ->); [|done].
    exists (r :: rs). split; [by constructor|]. simpl. by rewrite js_fold_class.
Qed.

Lemma js_steps_rest rs t :
  js_firstClass t = false ->
  js_firstClass (fold_left js_class_step rs t) = false /\
  js_out (fold_left js_class_step rs t) =
    js_out t ++ String.concat "" (map (fun r => ("," ++ nl) ++ js_block r) (List.filter has_native rs)).
Proof.
  revert t. induction rs as [|r rs IH]; intros t Ht.
  - simpl. by rewrite str_app_nil.
  - cbn [fold_left List.filter]. destruct (has_native r) eqn:Eh.
    + rewrite js_class_step_native by done. rewrite Ht. cbv iota.
      destruct (IH (mkJS false false (js_out t ++ ("," ++ nl) ++ js_block r))) as [H1 H2]; [done|].
      split; [done|]. rewrite H2. cbn [js_out map]. rewrite concat_empty_cons, ?str_app_assoc. reflexivity.
    + rewrite js_class_step_plain by done. by apply IH.
Qed.

Lemma js_steps_first rs fm out :
  js_out (fold_left js_class_step rs (mkJS fm true out)) =
  out ++ join ("," ++ nl) (map js_block (List.filter has_native rs)).
Proof.
  revert fm. induction rs as [|r rs IH]; intros fm.
  - simpl. by rewrite str_app_nil.
  - cbn [fold_left List.filter]. destruct (has_native r) eqn:Eh.
    + rewrite js_class_step_native by done. cbn [js_out js_firstClass].
      destruct (js_steps_rest rs (mkJS false false (out ++ "" ++ js_block r))) as [_ H]; [done|].
      rewrite H. cbn [js_out map]. rewrite join_cons, map_map. rewrite ?str_app_assoc, ?str_app_nil. reflexivity.
    + rewrite js_class_step_plain by done. apply IH.
Qed.

(** With the JavaScript template, a successful run writes the file prologue, one
    block per requested class with a native method, joined by commas, and
    the closing [});]. *)
Theorem js_run_text load depth classes out s' :
  js_run load depth classes st_init = (Ok out, s') ->
  exists rs, Forall2 (fun d r => expected_class load d = Some (RefCD r)) classes rs /\
    out = js_fileStart_text ++ join ("," ++ nl) (map js_block (List.filter has_native rs))
          ++ nl ++ "});" ++ nl.
Proof.
  unfold js_run. intros H. apply bind_ok in H as (t & s1 & H1 & H).
  apply js_loop_ok in H1 as (rs & Hrs & ->); [|apply cache_ok_init].
  apply ret_ok in H as [<- _]. exists rs. split; [done|].
  unfold js_fileEnd, js_fileStart, js_write, js_init. simpl.
  rewrite js_steps_first. simpl. rewrite ?str_app_assoc. reflexivity.
Qed.

Lemma append_stub_twice a b s : append_stub b (append_stub a s) = append_stub (a ++ b) s.
Proof. unfold append_stub. simpl. by rewrite str_app_assoc. Qed.

Lemma append_stub_nil s : append_stub "" s = s.
Proof. destruct s. unfold append_stub. simpl. by rewrite str_app_nil. Qed.

Lemma forEach_stub {A} (f : A -> M unit) (P : A -> string) xs s :
  (forall x s, f x s = (Ok tt, append_stub (P x) s)) ->
  forEach f xs s = (Ok tt, append_stub (String.concat "" (map P xs)) s).
Proof.
  intros Hf. revert s. induction xs as [|x xs IH]; intros s.
  - simpl. by rewrite append_stub_nil.
  - cbn [forEach map]. rewrite concat_empty_cons. unfold bind at 1. rewrite Hf.
    cbv beta iota. rewrite IH. by rewrite append_stub_twice.
Qed.

Lemma fileEnd_body ik s :
  ((if Nat.ltb 0 ik.1 then write_stub "," else ret tt) ;;
   write_stub (nl ++ "  '" ++ replace_char "_" "/" ik.2 ++ "': " ++ ik.2)) s =
  (Ok tt, append_stub (export_piece ik) s).
Proof.
  unfold export_piece, ts_export_entry.
  destruct (Nat.ltb 0 ik.1); cbv [bind write_stub modify ret]; cbv beta iota.
  - by rewrite append_stub_twice.
  - reflexivity.
Qed.

Lemma export_pieces_pos (g : nat -> string -> nat * string) l :
  (forall i x, (g i x).2 = x /\ 0 < (g i x).1) ->
  map export_piece (imap g l) = map (fun x => "," ++ ts_export_entry x) l.
Proof.
  revert g. induction l as [|x l IH]; intros g Hg; [done|].
  rewrite imap_cons. cbn [map]. rewrite IH by (intros; apply Hg).
  unfold export_piece. destruct (Hg 0 x) as [-> Hp]. apply Nat.ltb_lt in Hp. by rewrite Hp.
Qed.

Lemma export_pieces seen :
  String.concat "" (map export_piece (imap pair seen)) = join "," (map ts_export_entry seen).
Proof.
  destruct seen as [|x l]; [done|].
  rewrite imap_cons. cbn [map]. rewrite concat_empty_cons, join_cons.
  rewrite export_pieces_pos by (intros; simpl; split; [done|lia]). rewrite map_map. done.
Qed.

(** [TSTemplate.fileEnd] writes the export line and one comma-separated
    [registerNatives] entry per class seen, in order. *)
Theorem ts_fileEnd_text s :
  ts_fileEnd s =
  (Ok tt, append_stub (nl ++ "// Export line. This is what DoppioJVM sees." ++ nl ++ "registerNatives({"
                       ++ join "," (map ts_export_entry (st_classesSeen s)) ++ nl ++ "});" ++ nl) s).
Proof.
  unfold ts_fileEnd, gets. unfold bind at 1. cbv beta iota.
  unfold bind at 1. unfold write_stub at 1, modify at 1. cbv beta iota.
  unfold bind at 1. rewrite (forEach_stub _ export_piece) by apply fileEnd_body. cbv beta iota.
  unfold write_stub, modify. rewrite !append_stub_twice. do 2 f_equal.
  rewrite export_pieces. rewrite ?str_app_assoc. reflexivity.
Qed.

Lemma frame_seen_same load : frame seen_same load.
Proof. unfold seen_same. split; intros; simpl; congruence. Qed.

Lemma ts_call_seen load depth c s s' :
  ts_call load depth c s = (Ok tt, s') ->
  st_classesSeen s' = (st_classesSeen s ++ call_starts c)%list.
Proof.
  destruct c as [n|cd mn st ats rt|n]; cbn [ts_call call_starts]; intros H.
  - unfold ts_classStart in H. apply bind_ok in H as (u1 & s1 & H1 & H).
    apply bind_ok in H as (u2 & s2 & H2 & H).
    unfold write_stub, modify in H1, H2. injection H1 as _ <-. injection H2 as _ <-.
    assert (P : pres seen_same (generateClassDefinition load depth ("L" ++ replace_char "_" "/" n ++ ";")))
      by gpres ltac:(frame_from (frame_seen_same load)).
    match type of H with ?m ?st = _ => specialize (P st) end.
    rewrite H in P. unfold seen_same in P. simpl in P. exact P.
  - assert (P : pres seen_same (ts_method load depth cd mn st ats rt))
      by gpres ltac:(first [frame_from (frame_seen_same load) | intros ??; reflexivity]).
    specialize (P s). rewrite H in P. unfold seen_same in P. simpl in P. by rewrite app_nil_r.
  - unfold ts_classEnd, write_stub, modify in H. injection H as <-. simpl. by rewrite app_nil_r.
Qed.

Lemma forEach_ts_call_seen load depth l s s' :
  forEach (ts_call load depth) l s = (Ok tt, s') ->
  st_classesSeen s' = (st_classesSeen s ++ concat (map call_starts l))%list.
Proof.
  revert s. induction l as [|c l IH]; intros s H; simpl in H.
  - apply ret_ok in H as [_ <-]. simpl. by rewrite app_nil_r.
  - apply bind_ok in H as ([] & s1 & H1 & H). apply ts_call_seen in H1. apply IH in H.
    rewrite H, H1. simpl. by rewrite app_assoc.
Qed.

Lemma processClassData_starts r :
  concat (map call_starts (processClassData r)) = if has_native r then [fixedClassName r] else [].
Proof.
  unfold processClassData, has_native. rewrite pcd_methods_spec.
  destruct (existsb m_isNative (rc_methods r)) eqn:E.
  - apply filter_existsb in E.
    destruct (List.filter m_isNative (rc_methods r)) as [|m ms] eqn:Ef; [done|].
    cbv beta iota zeta. rewrite !map_app, !concat_app. cbn [map concat call_starts orb].
    rewrite map_map. cbn [call_starts].
    assert (Hz : forall A (l : list A), concat (map (fun _ => @nil string) l) = []).
    { intros A l'. induction l'; simpl; done. }
    rewrite Hz. reflexivity.
  - rewrite existsb_filter_nil by done. reflexivity.
Qed.

Lemma processClass_cache load depth d : pres (cache_step load) (processClass load depth d).
Proof. gpres ltac:(tframe_from (tframe_cache load)). Qed.

(** The main loop adds to [classesSeen] the fixed name of each requested
    class that has a native method, in request order. *)
Theorem main_loop_classesSeen load depth classes s s' :
  cache_ok load s ->
  forEach (processClass load depth) classes s = (Ok tt, s') ->
  exists rs, Forall2 (fun d r => expected_class load d = Some (RefCD r)) classes rs /\
    st_classesSeen s' = (st_classesSeen s ++ map fixedClassName (List.filter has_native rs))%list.
Proof.
  revert s. induction classes as [|d ds IH]; intros s Hc H; simpl in H.
  - apply ret_ok in H as [_ <-]. exists []. split; [done|]. simpl. by rewrite app_nil_r.
  - apply bind_ok in H as ([] & s1 & H1 & H).
    pose proof (processClass_cache load depth d s Hc) as Hc1. rewrite H1 in Hc1. simpl in Hc1.
    apply IH in H as (rs & Hrs & Hseen); [|by apply Hc1].
    unfold processClass in H1. apply bind_ok in H1 as (c & s0 & Hf & H1).
    pose proof (findClass_value _ _ _ _ _ _ Hc Hf) as Hv.
    destruct c as [r| |]; try discriminate.
    apply forEach_ts_call_seen in H1. rewrite processClassData_starts in H1.
    exists (r :: rs). split; [by constructor|]. rewrite Hseen, H1.
    assert (Hs : pres seen_same (findClass load depth d)) by gpres ltac:(frame_from (frame_seen_same load)).
    specialize (Hs s). rewrite Hf in Hs. unfold seen_same in Hs. simpl in Hs. rewrite Hs.
    simpl. destruct (has_native r); simpl; [by rewrite <- app_assoc|by rewrite app_nil_r].
Qed.

Lemma rval_line rt :
  (let trueRtype := ts_name true rt in
   let rval := if String.eqb trueRtype "number" then "0"
               else if negb (String.eqb trueRtype "void") then "null" else "" in
   if String.eqb rval "" then "" else nl ++ "    return " ++ rval ++ ";") = return_line rt.
Proof.
  destruct rt as [|c r]; [reflexivity|]. cbn [ts_name return_line].
  destruct (Ascii.eqb c "[") eqn:E1; [apply Ascii.eqb_eq in E1; by subst|].
  destruct (Ascii.eqb c "L") eqn:E2; [apply Ascii.eqb_eq in E2; by subst|].
  destruct (Ascii.eqb c "J") eqn:E3; [apply Ascii.eqb_eq in E3; by subst|].
  destruct (Ascii.eqb c "V") eqn:E4; [apply Ascii.eqb_eq in E4; by subst|].
  reflexivity.
Qed.

Lemma stub_after {A} (m : M A) s a s' :
  pres stub_same m -> m s = (Ok a, s') -> st_stub s' = st_stub s.
Proof. intros P H. specialize (P s). rewrite H in P. apply P. Qed.

Lemma st_stub_append t s : st_stub (append_stub t s) = st_stub s ++ t.
Proof. reflexivity. Qed.

(** A TypeScript stub throws [UnsatisfiedLinkError] and then returns nothing
    for [V], [null] for [J], references and arrays, and [0] otherwise. *)
Theorem ts_method_return load depth cd mn st ats rt s s' :
  ts_method load depth cd mn st ats rt s = (Ok tt, s') ->
  exists head, st_stub s' = st_stub s ++ head ++ throw_line ++ return_line rt ++ nl ++ "  }" ++ nl.
Proof.
  unfold ts_method. intros H.
  apply bind_ok in H as (tr & s1 & H1 & H).
  pose proof (jvmtype2tstype_value _ _ _ _ _ _ _ H1) as ->.
  apply stub_after in H1; [|gpres ltac:(frame_from (frame_stub_same load))].
  apply bind_ok in H as (u2 & s2 & H2 & H).
  apply stub_after in H2; [|gpres ltac:(frame_from (frame_stub_same load))].
  apply bind_ok in H as (tp & s3 & H3 & H).
  apply stub_after in H3; [|gpres ltac:(frame_from (frame_stub_same load))].
  apply bind_ok in H as (ap & s4 & H4 & H).
  apply stub_after in H4; [|gpres ltac:(frame_from (frame_stub_same load))].
  apply bind_ok in H as (rT & s5 & H5 & H).
  apply stub_after in H5; [|gpres ltac:(frame_from (frame_stub_same load))].
  unfold write_stub, modify in H. apply (f_equal snd) in H. cbn [snd] in H. subst s'.
  exists (nl ++ "  public static '" ++ mn ++ "'(thread: JVMThread" ++ tp ++ ap ++ "): " ++ rT ++ " {" ++ nl).
  rewrite st_stub_append, H5, H4, H3, H2, H1.
  rewrite <- (rval_line rt). cbv zeta. unfold throw_line. rewrite ?str_app_assoc. reflexivity.
Qed.

Lemma mapM_value {A B} (f : A -> M B) (g : A -> B) xs s ys s' :
  (forall x s a s', f x s = (Ok a, s') -> a = g x /\ st_header s' = st_header s) ->
  mapM f xs s = (Ok ys, s') -> ys = map g xs /\ st_header s' = st_header s.
Proof.
  intros Hf. revert s ys. induction xs as [|x xs IH]; intros s ys H; simpl in H.
  - apply ret_ok in H as [<- <-]. done.
  - apply bind_ok in H as (y & s1 & H1 & H). apply bind_ok in H as (ys' & s2 & H2 & H).
    apply ret_ok in H as [<- <-]. destruct (IH _ _ H2) as [-> E2].
    destruct (Hf _ _ _ _ H1) as [-> E1]. split; [done|congruence].
Qed.

Lemma jvm_value load depth prefix d s t s' :
  jvmtype2tstype load depth prefix d s = (Ok t, s') -> t = ts_name prefix d /\ st_header s' = st_header s.
Proof.
  intros H. split; [by eapply jvmtype2tstype_value|].
  pose proof (header_same_jvm load depth prefix d s) as E. rewrite H in E. exact E.
Qed.

Lemma st_header_append t s : st_header (append_header t s) = st_header s ++ t.
Proof. reflexivity. Qed.

(** [_outputMethod] writes nothing for a static interface method, one line
    for another interface method, and two lines (short and full signature)
    for a class method. *)
Theorem outputMethod_text load depth m s s' :
  outputMethod load depth m s = (Ok tt, s') ->
  st_header s' =
  if m_cls_isInterface m then
    (if m_isStatic m then st_header s
     else st_header s ++ "    " ++ dq ++ m_signature m ++ dq ++ method_sig m ++ ";" ++ nl)
  else
    st_header s ++ "    " ++ method_flags m ++ " " ++ dq ++ m_signature m ++ dq ++ method_sig m ++ ";" ++ nl
    ++ "    " ++ method_flags m ++ " " ++ dq ++ m_fullSignature m ++ dq ++ method_sig m ++ ";" ++ nl.
Proof.
  unfold outputMethod. cbv zeta. intros H.
  apply bind_ok in H as (rv & s1 & H1 & H).
  assert (E1 : rv = (if String.eqb (m_returnType m) "V" then ""
                     else ", rv?: " ++ ts_name false (m_returnType m)) /\ st_header s1 = st_header s).
  { destruct (String.eqb (m_returnType m) "V").
    - apply ret_ok in H1 as [<- <-]. done.
    - apply bind_ok in H1 as (t & s0 & H0 & H1). apply ret_ok in H1 as [<- <-].
      apply jvm_value in H0 as [-> E]. done. }
  destruct E1 as [-> E1].
  apply bind_ok in H as (args & s2 & H2 & H).
  assert (E2 : args = match m_parameterTypes m with
              | [] => "args: {}[]"
              | ps => "args: [" ++ join ", " (map (fun ty => ts_name false ty ++
                        (if String.eqb ty "J" || String.eqb ty "D" then ", any" else "")) ps) ++ "]"
              end /\ st_header s2 = st_header s1).
  { destruct (m_parameterTypes m) as [|p ps].
    - apply ret_ok in H2 as [<- <-]. done.
    - apply bind_ok in H2 as (ts & s0 & H0 & H2). apply ret_ok in H2 as [<- <-].
      eapply mapM_value in H0 as [-> E]; [done|].
      intros x sx a sx' Hx. apply bind_ok in Hx as (t & sy & Hy & Hx). apply ret_ok in Hx as [<- <-].
      apply jvm_value in Hy as [-> E']. done. }
  destruct E2 as [-> E2].
  unfold method_sig, method_flags.
  destruct (m_cls_isInterface m), (m_isStatic m).
  - apply ret_ok in H as [_ <-]. congruence.
  - unfold write_header, modify in H. apply (f_equal snd) in H. cbn [snd] in H. subst s'.
    rewrite st_header_append, E2, E1. reflexivity.
  - apply bind_ok in H as (u & s3 & H3 & H). unfold write_header, modify in H, H3.
    apply (f_equal snd) in H. apply (f_equal snd) in H3. cbn [snd] in H, H3. subst s' s3.
    rewrite !st_header_append, E2, E1. rewrite ?str_app_assoc. reflexivity.
  - apply bind_ok in H as (u & s3 & H3 & H). unfold write_header, modify in H, H3.
    apply (f_equal snd) in H. apply (f_equal snd) in H3. cbn [snd] in H, H3. subst s' s3.
    rewrite !st_header_append, E2, E1. rewrite ?str_app_assoc. reflexivity.
Qed.

Lemma tframe_hdr_prefix load : tframe hdr_prefix load.
Proof.
  unfold hdr_prefix. split; [split|..]; intros; simpl;
    try (exists ""; by rewrite str_app_nil).
  - match goal with H1 : exists _, _, H2 : exists _, _ |- _ =>
      destruct H1 as [t1 E1]; destruct H2 as [t2 E2] end.
    exists (t1 ++ t2). by rewrite E2, E1, str_app_assoc.
  - by eexists.
Qed.

Lemma header_same_replay load depth existing :
  pres (fun s s' => st_header s' = st_header s) (replayHeaders load depth existing).
Proof.
  eapply pres_replayHeaders; try (intros; simpl; congruence).
  intros dp d' s _ _ _. revert s.
  change (pres (fun s s' : St => st_header s' = st_header s) (enqueue load dp d')).
  eapply pres_enqueue_of; intros; simpl; congruence.
Qed.

Lemma hdr_prefix_at {A} (m : M A) s v s' :
  pres hdr_prefix m -> m s = (v, s') -> exists t, st_header s' = st_header s ++ t.
Proof. intros P H. exact (pres_at _ _ _ _ _ P H). Qed.

(** The header file of a successful run starts with the imports, the array
    and misc definitions, and ends with the closing of the module and the
    export. *)
Theorem run_header_shape load depth e p force classes fuel s' :
  run load depth e p force classes fuel st_init = (Ok tt, s') ->
  exists mid, st_header s' =
    headersStart_text p ++ arrayDefinition_text ++ miscDefinitions_text ++ mid
    ++ "}" ++ nl ++ "export = JVMTypes;" ++ nl.
Proof.
  unfold run, tsTemplate_new, headersEnd. intros H.
  apply bind_ok in H as (u1 & s1 & H1 & H).
  apply bind_ok in H1 as (v1 & r1 & Hr & H1).
  pose proof (pres_at _ _ _ _ _ (header_same_replay load depth e) Hr) as E0. simpl in E0.
  unfold write_header in H1. rewrite !bind_modify in H1.
  apply hdr_prefix_at in H1 as [t1 E1]; [|gpres ltac:(tframe_from (tframe_hdr_prefix load))].
  apply bind_ok in H as (u2 & s2 & H2 & H).
  apply hdr_prefix_at in H2 as [t2 E2]; [|gpres ltac:(tframe_from (tframe_hdr_prefix load))].
  apply bind_ok in H as (u3 & s3 & H3 & H).
  apply hdr_prefix_at in H3 as [t3 E3]; [|gpres ltac:(tframe_from (tframe_hdr_prefix load))].
  apply bind_ok in H as (u4 & s4 & H4 & H).
  apply hdr_prefix_at in H4 as [t4 E4]; [|gpres ltac:(tframe_from (tframe_hdr_prefix load))].
  apply bind_ok in H as (u5 & s5 & H5 & H).
  apply hdr_prefix_at in H5 as [t5 E5]; [|gpres ltac:(tframe_from (tframe_hdr_prefix load))].
  unfold write_header, modify in H. apply (f_equal snd) in H. cbn [snd] in H. subst s'.
  exists (t1 ++ t2 ++ t3 ++ t4 ++ t5).
  rewrite st_header_append, E5, E4, E3, E2, E1. cbn [append_header st_header]. rewrite E0.
  simpl st_header. rewrite ?str_app_assoc. reflexivity.
Qed.

Lemma seen_same_at {A} (m : M A) s v s' :
  pres seen_same m -> m s = (v, s') -> st_classesSeen s' = st_classesSeen s.
Proof. intros P H. exact (pres_at _ _ _ _ _ P H). Qed.

(** The stub file of a successful run ends with the export line listing the
    requested classes that have native methods. *)
Theorem run_stub_exports load depth e p force classes fuel s' :
  run load depth e p force classes fuel st_init = (Ok tt, s') ->
  exists rs pre,
    Forall2 (fun d r => expected_class load d = Some (RefCD r)) classes rs /\
    st_stub s' = pre ++ nl ++ "// Export line. This is what DoppioJVM sees." ++ nl ++ "registerNatives({"
                 ++ join "," (map ts_export_entry (map fixedClassName (List.filter has_native rs)))
                 ++ nl ++ "});" ++ nl.
Proof.
  unfold run. intros H.
  apply bind_ok in H as (u1 & s1 & H1 & H).
  assert (Hc1 : cache_ok load s1).
  { eapply (pres_at (cache_step load)); [|exact H1|apply cache_ok_init].
    gpres ltac:(tframe_from (tframe_cache load)). }
  apply seen_same_at in H1 as Hs1;
    [|gpres ltac:(first [frame_from (frame_seen_same load) | intros ??; reflexivity])].
  apply bind_ok in H as (u2 & s2 & H2 & H).
  assert (Hc2 : cache_ok load s2).
  { eapply (pres_at (cache_step load)); [|exact H2|exact Hc1].
    gpres ltac:(tframe_from (tframe_cache load)). }
  apply seen_same_at in H2 as Hs2;
    [|gpres ltac:(first [frame_from (frame_seen_same load) | intros ??; reflexivity])].
  apply bind_ok in H as (u3 & s3 & H3 & H). destruct u3.
  apply main_loop_classesSeen in H3 as (rs & Hrs & Hs3); [|exact Hc2].
  apply bind_ok in H as (u4 & s4 & H4 & H).
  rewrite ts_fileEnd_text in H4. apply (f_equal snd) in H4. cbn [snd] in H4. subst s4.
  apply stub_after in H; [|gpres ltac:(frame_from (frame_stub_same load))].
  exists rs, (st_stub s3). split; [done|]. rewrite H. change (st_stub (append_stub ?t ?s)) with (st_stub s ++ t).
  change (st_classesSeen (append_stub ?t ?s)) with (st_classesSeen s).
  rewrite Hs3, Hs2, Hs1. change (st_classesSeen st_init) with (@nil string). rewrite app_nil_l, map_map. reflexivity.
Qed.

Ltac hp_fr load :=
  first [ tframe_from (tframe_hdr_prefix load) | eapply pres_outputMethod | eapply pres_outputField
        | progress unfold outputInjectedField, outputInjectedMethod, outputInjectedStaticMethod, processHeaderBases ].

(** [_processHeader] writes one [export class] or [export interface] block
    named after the class, closed by [  }]. *)
Theorem processHeader_block load depth r s s' :
  processHeader load depth (RefCD r) s = (Ok tt, s') ->
  exists bases body, st_header s' =
    st_header s ++ (if rc_isInterface r then "  export interface " else "  export class ")
    ++ ts_name false (rc_name r) ++ bases ++ " {" ++ nl ++ body ++ "  }" ++ nl.
Proof.
  unfold processHeader. intros H.
  rewrite bind_modify in H.
  apply bind_ok in H as (nm & s1 & H1 & H). apply jvm_value in H1 as [-> E1].
  unfold write_header at 1 in H. rewrite bind_modify in H.
  apply bind_ok in H as (u2 & s2 & H2 & H).
  apply hdr_prefix_at in H2 as [t2 E2]; [|gpres ltac:(hp_fr load)].
  unfold write_header at 1 in H. rewrite bind_modify in H.
  apply bind_ok in H as (u3 & s3 & H3 & H).
  apply hdr_prefix_at in H3 as [t3 E3]; [|gpres ltac:(hp_fr load)].
  apply bind_ok in H as (u4 & s4 & H4 & H).
  apply hdr_prefix_at in H4 as [t4 E4]; [|gpres ltac:(hp_fr load)].
  apply bind_ok in H as (u5 & s5 & H5 & H).
  apply hdr_prefix_at in H5 as [t5 E5]; [|gpres ltac:(hp_fr load)].
  apply bind_ok in H as (u6 & s6 & H6 & H).
  apply hdr_prefix_at in H6 as [t6 E6]; [|gpres ltac:(hp_fr load)].
  apply bind_ok in H as (u7 & s7 & H7 & H).
  apply hdr_prefix_at in H7 as [t7 E7]; [|gpres ltac:(hp_fr load)].
  apply bind_ok in H as (u8 & s8 & H8 & H).
  apply hdr_prefix_at in H8 as [t8 E8]; [|gpres ltac:(hp_fr load)].
  unfold write_header, modify in H. apply (f_equal snd) in H. cbn [snd] in H. subst s'.
  exists t2, (t3 ++ t4 ++ t5 ++ t6 ++ t7 ++ t8).
  rewrite st_header_append, E8, E7, E6, E5, E4, E3, st_header_append, E2, st_header_append, E1.
  change (st_header (incr_count s)) with (st_header s). rewrite ?str_app_assoc. reflexivity.
Qed.

Lemma js_run_text_witness :
  exists out s', js_run sample_load 50 ["LFoo;"] st_init = (Ok out, s') /\
  exists rs, Forall2 (fun d r => expected_class sample_load d = Some (RefCD r)) ["LFoo;"] rs /\
    out = js_fileStart_text ++ join ("," ++ nl) (map js_block (List.filter has_native rs))
          ++ nl ++ "});" ++ nl.
Proof.
  destruct (js_run sample_load 50 ["LFoo;"] st_init) as [[out|e] s'] eqn:E.
  - exists out, s'. split; [reflexivity|]. exact (js_run_text sample_load 50 ["LFoo;"] out s' E).
  - exfalso. vm_compute in E. discriminate.
Defined.

Lemma main_loop_classesSeen_witness :
  exists s', forEach (processClass sample_load 50) ["LFoo;"] st_init = (Ok tt, s') /\
  exists rs, Forall2 (fun d r => expected_class sample_load d = Some (RefCD r)) ["LFoo;"] rs /\
    st_classesSeen s' = (st_classesSeen st_init ++ map fixedClassName (List.filter has_native rs))%list.
Proof.
  destruct (forEach (processClass sample_load 50) ["LFoo;"] st_init) as [[[]|e] s'] eqn:E.
  - exists s'. split; [reflexivity|].
    exact (main_loop_classesSeen sample_load 50 ["LFoo;"] st_init s' (cache_ok_init sample_load) E).
  - exfalso. vm_compute in E. discriminate.
Defined.

Lemma ts_method_return_witness :
  exists s', ts_method sample_load 50 "LFoo;" "baz" true ["J"] "I" st_init = (Ok tt, s') /\
  exists head, st_stub s' = st_stub st_init ++ head ++ throw_line ++ return_line "I" ++ nl ++ "  }" ++ nl.
Proof.
  destruct (ts_method sample_load 50 "LFoo;" "baz" true ["J"] "I" st_init) as [[[]|e] s'] eqn:E.
  - exists s'. split; [reflexivity|].
    exact (ts_method_return sample_load 50 "LFoo;" "baz" true ["J"] "I" st_init s' E).
  - exfalso. vm_compute in E. discriminate.
Defined.

Lemma outputMethod_text_witness :
  let m := mkMethod "baz(JLjava/lang/Object;)I" "LFoo;/baz(JLjava/lang/Object;)I"
             ["J"; "Ljava/lang/Object;"] "I" false true false in
  exists s', outputMethod sample_load 50 m st_init = (Ok tt, s') /\
  st_header s' =
  if m_cls_isInterface m then
    (if m_isStatic m then st_header st_init
     else st_header st_init ++ "    " ++ dq ++ m_signature m ++ dq ++ method_sig m ++ ";" ++ nl)
  else st_header st_init ++ "    " ++ method_flags m ++ " " ++ dq ++ m_signature m ++ dq ++ method_sig m ++ ";" ++ nl
       ++ "    " ++ method_flags m ++ " " ++ dq ++ m_fullSignature m ++ dq ++ method_sig m ++ ";" ++ nl.
Proof.
  intros m.
  destruct (outputMethod sample_load 50 m st_init) as [[[]|e] s'] eqn:E.
  - exists s'. split; [reflexivity|].
    exact (outputMethod_text sample_load 50 m st_init s' E).
  - exfalso. vm_compute in E. discriminate.
Defined.

Lemma run_header_shape_witness :
  exists s', run sample_load 50 None "doppiojvm" [] ["LFoo;"] 100 st_init = (Ok tt, s') /\
  exists mid, st_header s' =
    headersStart_text "doppiojvm" ++ arrayDefinition_text ++ miscDefinitions_text ++ mid
    ++ "}" ++ nl ++ "export = JVMTypes;" ++ nl.
Proof.
  destruct (run sample_load 50 None "doppiojvm" [] ["LFoo;"] 100 st_init) as [[[]|e] s'] eqn:E.
  - exists s'. split; [reflexivity|].
    exact (run_header_shape sample_load 50 None "doppiojvm" [] ["LFoo;"] 100 s' E).
  - exfalso. vm_compute in E. discriminate.
Defined.

Lemma run_stub_exports_witness :
  exists s', run sample_load 50 None "doppiojvm" [] ["LFoo;"] 100 st_init = (Ok tt, s') /\
  exists rs pre,
    Forall2 (fun d r => expected_class sample_load d = Some (RefCD r)) ["LFoo;"] rs /\
    st_stub s' = pre ++ nl ++ "// Export line. This is what DoppioJVM sees." ++ nl ++ "registerNatives({"
      ++ join "," (map ts_export_entry (map fixedClassName (List.filter has_native rs))) ++ nl ++ "});" ++ nl.
Proof.
  destruct (run sample_load 50 None "doppiojvm" [] ["LFoo;"] 100 st_init) as [[[]|e] s'] eqn:E.
  - exists s'. split; [reflexivity|].
    exact (run_stub_exports sample_load 50 None "doppiojvm" [] ["LFoo;"] 100 s' E).
  - exfalso. vm_compute in E. discriminate.
Defined.

Lemma processHeader_block_witness :
  let r := plain_class "LFoo;" (Some "Ljava/lang/Object;") [m_bar] in
  exists s', processHeader sample_load 50 (RefCD r) st_init = (Ok tt, s') /\
  exists bases body, st_header s' =
    st_header st_init ++ (if rc_isInterface r then "  export interface " else "  export class ")
    ++ ts_name false (rc_name r) ++ bases ++ " {" ++ nl ++ body ++ "  }" ++ nl.
Proof.
  intros r.
  destruct (processHeader sample_load 50 (RefCD r) st_init) as [[[]|e] s'] eqn:E.
  - exists s'. split; [reflexivity|].
    exact (processHeader_block sample_load 50 r st_init s' E).
  - exfalso. vm_compute in E. discriminate.
Defined.
